(** * GrammarGuard: retry policy, durable store, activity grid, request coordinator

  A shallow embedding of the non-visual control layer of the application:
  - [GeminiService]: [retryWithBackoff] (src/components/InteractiveText.tsx,
    the geminiService part); [GeminiClient]: the key of the client and the
    three remote operations (same part);
  - [StorageService]: history, statistics, export/import and the versioned
    app snapshot (same file, the storageService part);
  - [Profile]: the activity calendar of the profile page (src/unnamed/part_002);
    [ProfileView]: its usage chart, badges and restore button;
  - [App]: the request handlers and their shared request id (src/App.tsx);
    [AppMore]: quick rewrite, dictionary search and swipe navigation;
  - [InteractiveText]: the words that swap with their pronunciation
    (src/components/InteractiveText.tsx, the component part);
  - [SettingsPage]: saving and removing the API key (src/sw.js, the
    settings part).

  JavaScript numbers that hold counts, timestamps and delays are integers
  here ([nat] or [Z]); where the source computes with a fraction, the
  accuracy rate, or with touch coordinates, IEEE binary64 is used through
  [PrimFloat].  A [Date] is its time value, and the calendar reads it with
  the arithmetic of ECMAScript ([LocalTime], [UTC], [Day]).

  What comes from outside is an argument of the function that reads it: the
  clock ([Date.now()]), [crypto.randomUUID()], the random shuffle, the way
  each remote call settles, the offset of the local time zone.  An
  asynchronous handler is two functions, the part before its [await] and
  the part after it, so that other handlers can run in between.
  [localStorage.setItem] is taken to succeed (no quota error). *)

From Stdlib Require Import ZArith Lia Bool Ascii String List Sorted Permutation.
From Stdlib Require Import PrimFloat Uint63 SpecFloat FloatOps.
From stdpp Require Import base option list gmap strings.
Import ListNotations.

#[local] Open Scope string_scope.
#[local] Open Scope Z_scope.
#[local] Open Scope list_scope.

(** ** JavaScript helpers *)

Module Js.

(** A JavaScript string is a sequence of code units and [length] counts
    them; [string] stands for it, one character per code unit. *)

(** [hay.includes(needle)] *)
Fixpoint includes (hay needle : string) : bool :=
  String.prefix needle hay
  || match hay with
     | EmptyString => false
     | String _ rest => includes rest needle
     end.

(** White space removed by [String.prototype.trim], on the 8-bit range:
    tab, line feed, vertical tab, form feed, carriage return, space and the
    no-break space. *)
Definition isWhiteSpace (c : ascii) : bool :=
  match nat_of_ascii c with
  | 9%nat | 10%nat | 11%nat | 12%nat | 13%nat | 32%nat | 160%nat => true
  | _ => false
  end.

(** [!s.trim()]: nothing is left once white space is trimmed. *)
Fixpoint trimIsEmpty (s : string) : bool :=
  match s with
  | EmptyString => true
  | String c rest => isWhiteSpace c && trimIsEmpty rest
  end.

(** [s.substring(0, n)] *)
Fixpoint take (n : nat) (s : string) : string :=
  match n, s with
  | O, _ => EmptyString
  | S _, EmptyString => EmptyString
  | S n', String c rest => String c (take n' rest)
  end.

(** A thrown value, as far as the handlers look into it. *)
Record Error := {
  message : string;            (* error?.message || '' *)
  errorField : option string;  (* JSON.stringify(error.error) when error.error is truthy *)
  asJson : option string;      (* JSON.stringify(error) when typeof error === 'object' and it does not throw *)
  asText : string              (* error?.toString() || '' *)
}.

(** [new Error(m)] *)
Definition newError (m : string) : Error :=
  {| message := m; errorField := None; asJson := Some "{}";
     asText := "Error: " +:+ m |}.

(** How a promise settles. *)
Inductive Settled (T : Type) : Type :=
| Resolved (value : T)
| Rejected (error : Error).
#[global] Arguments Resolved {T} value.
#[global] Arguments Rejected {T} error.

(** [Array.prototype.sort(compare)]: a stable sort; [x] stays in front of [y]
    when [compare x y <= 0]. *)
Fixpoint insertSorted {A : Type} (compare : A -> A -> Z) (x : A) (l : list A) : list A :=
  match l with
  | [] => [x]
  | y :: rest =>
    if compare x y <=? 0 then x :: l else y :: insertSorted compare x rest
  end.

Definition sort {A : Type} (compare : A -> A -> Z) (l : list A) : list A :=
  List.fold_right (insertSorted compare) [] l.

(** [x] may stand in front of [y]. *)
Definition inOrder {A : Type} (compare : A -> A -> Z) (x y : A) : Prop := compare x y <= 0.

(** [Math.round] of a binary64 number: the nearest integer, a tie going up.
    Zeros give 0; so do NaN and the infinities, which are not integers. *)
Definition Math_round (x : float) : Z :=
  match Prim2SF x with
  | S754_finite negative m e =>
    let v := if negative then Z.neg m else Z.pos m in
    if 0 <=? e then v * 2 ^ e else (2 * v + 2 ^ (- e)) / 2 ^ (1 - e)
  | _ => 0
  end.

(** A count as a JavaScript number. *)
Definition toNumber (n : nat) : float := PrimFloat.of_uint63 (Uint63.of_Z (Z.of_nat n)).

End Js.

(** ** geminiService: retry with exponential backoff *)

Module GeminiService.

Import Js.

(** What an execution of the wrapper does, in order. *)
Inductive Event : Type :=
| Call (index : nat)                  (* await fn(), the index-th invocation, from 0 *)
| Warn (attempt : nat) (waitTime : Z) (* console.warn(...) *)
| Delay (ms : Z).                     (* await delay(ms) *)

(** The text the [catch] block assembles from the error. *)
Definition errorMsg (error : Error) : string :=
  message error
  +:+ match errorField error with Some j => j | None => "" end
  +:+ match asJson error with Some j => j | None => "" end
  +:+ asText error.

Definition isMissingKey (msg : string) : bool := includes msg "MISSING_API_KEY".
Definition isPermissionDenied (msg : string) : bool :=
  includes msg "PERMISSION_DENIED" || includes msg "403" || includes msg "Permission denied".
Definition isRateLimit (msg : string) : bool :=
  includes msg "429" || includes msg "RESOURCE_EXHAUSTED" || includes msg "Quota".
Definition isServerOverload (msg : string) : bool :=
  includes msg "503" || includes msg "Overloaded".

(** The five classes of the retry policy, in the order the checks are made. *)
Inductive ErrorClass : Type :=
| AuthMissing | PermissionDenied | RateLimited | ServiceUnavailable | Other.

Definition classify (error : Error) : ErrorClass :=
  let msg := errorMsg error in
  if isMissingKey msg then AuthMissing
  else if isPermissionDenied msg then PermissionDenied
  else if isRateLimit msg then RateLimited
  else if isServerOverload msg then ServiceUnavailable
  else Other.

Definition retryable (error : Error) : bool :=
  match classify error with
  | RateLimited | ServiceUnavailable => true
  | _ => false
  end.

Section Retry.
Context {T : Type}.
(** The operation: what its [k]-th invocation settles to. *)
Variable fn : nat -> Settled T.
Variable retries : nat.
Variable initialDelay : Z.

(** The [while (attempt < retries)] loop; [fuel] bounds the iterations. *)
Fixpoint retryLoop (fuel attempt : nat) (trace : list Event)
    : option (Settled T * list Event) :=
  if negb (attempt <? retries)%nat then
    Some (Rejected (newError "Max retries exceeded"), trace)
  else
    match fuel with
    | O => None
    | S fuel' =>
      let trace := trace ++ [Call attempt] in
      match fn attempt with
      | Resolved value => Some (Resolved value, trace)
      | Rejected error =>
        let msg := errorMsg error in
        if isMissingKey msg then Some (Rejected error, trace)
        else if isPermissionDenied msg then
          Some (Rejected (newError "PERMISSION_DENIED"), trace)
        else if negb (isRateLimit msg) && negb (isServerOverload msg) then
          Some (Rejected error, trace)
        else
          let attempt := S attempt in
          if (retries <=? attempt)%nat then Some (Rejected error, trace)
          else
            let waitTime := initialDelay * 2 ^ Z.of_nat (attempt - 1) in
            retryLoop fuel' attempt (trace ++ [Warn attempt waitTime; Delay waitTime])
      end
    end.

(** [retryWithBackoff(fn, retries, initialDelay)]: how the promise settles and
    what was done; [retries] iterations are enough (see [retryLoop_total]). *)
Definition retryWithBackoff : option (Settled T * list Event) :=
  retryLoop retries 0 [].
End Retry.

(** The defaults of the signature. *)
Definition defaultRetries : nat := 3.
Definition defaultInitialDelay : Z := 2000.

Definition calls (trace : list Event) : nat :=
  length (List.filter (fun e => match e with Call _ => true | _ => false end) trace).

Definition delays (trace : list Event) : list Z :=
  omap (fun e => match e with Delay ms => Some ms | _ => None end) trace.

(** *** Notions used in the statements *)

(** The trace of [k] retryable failures followed by one last call, from
    attempt counter [attempt] on. *)
Fixpoint backoffTrace (initialDelay : Z) (attempt k : nat) : list Event :=
  match k with
  | O => [Call attempt]
  | S k' =>
    let waitTime := initialDelay * 2 ^ Z.of_nat attempt in
    Call attempt :: Warn (S attempt) waitTime :: Delay waitTime
      :: backoffTrace initialDelay (S attempt) k'
  end.

(** The first [k] invocations from [attempt] on fail with a retryable error. *)
Definition failsRetryably {T : Type} (fn : nat -> Settled T) (attempt k : nat) : Prop :=
  forall j, (j < k)%nat ->
    exists error, fn (attempt + j)%nat = Rejected error /\ retryable error = true.

(** *** Sample operation *)

(** An operation that is rate limited twice and then answers. *)
Definition rateLimitedError : Error :=
  {| message := "429 Too Many Requests"; errorField := None;
     asJson := Some "{}"; asText := "Error: 429 Too Many Requests" |}.

Definition failsTwiceThenAnswers (k : nat) : Settled nat :=
  if (k <? 2)%nat then Rejected rateLimitedError else Resolved 7%nat.

End GeminiService.

(** ** storageService: history, statistics, backup and the app snapshot *)

Module StorageService.

Import Js.

Inductive Severity : Type := critical | suggestion.

Record Segment := {
  segText : string;
  isError : bool;
  severity : option Severity
}.

Inductive RewriteStyle : Type :=
| Professional | Casual | Academic | Creative | Formal
| Informal | Analytical | Narrative | Persuasive | Descriptive.

Definition styleName (style : RewriteStyle) : string :=
  match style with
  | Professional => "Professional" | Casual => "Casual" | Academic => "Academic"
  | Creative => "Creative" | Formal => "Formal" | Informal => "Informal"
  | Analytical => "Analytical" | Narrative => "Narrative"
  | Persuasive => "Persuasive" | Descriptive => "Descriptive"
  end.

(** The fields of the analyses that the store and the handlers read. *)
Record GrammarAnalysis := {
  segments : list Segment;
  correctedSentence : string
}.

Record RewriteAnalysis := {
  originalText : string;
  rewrittenText : string;
  style : RewriteStyle
}.

Inductive EntryType : Type := grammar | rewrite | dictionary.

Record HistoryEntry := {
  id : string;                   (* a missing id is the empty string: both are falsy *)
  timestamp : Z;
  textSnippet : string;
  fullText : option string;
  errorCount : nat;
  suggestionCount : nat;
  isPerfect : bool;
  type : option EntryType;
  rewriteStyle : option string
}.

Record UserStats := {
  totalChecks : nat;
  totalErrors : nat;
  accuracyRate : Z;
  perfectRuns : nat
}.

Record AppState := {
  inputText : string;
  grammarResult : option GrammarAnalysis;
  rewriteResult : option RewriteAnalysis;
  colorScheme : string
}.

(** A string held by [localStorage].  The text that [JSON.stringify] gives for
    a history array or for an app state is kept as the value it denotes, which
    is what [JSON.parse] gives back; every other string is [Plain]. *)
Inductive Item : Type :=
| Plain (text : string)
| HistoryJson (entries : list HistoryEntry)
| StateJson (state : AppState).

Abbreviation LocalStorage := (gmap string Item).

Definition STORAGE_KEY : string := "grammarguard_history".
Definition STATE_KEY : string := "grammarguard_app_state".
Definition API_KEY_STORAGE_KEY : string := "grammarguard_api_key".
Definition VERSION_KEY : string := "grammarguard_version".
Definition THEME_KEY : string := "grammarguard_theme".
Definition COLOR_SCHEME_KEY : string := "grammarguard_color_scheme".
Definition CURRENT_VERSION : string := "1.0.3".

(** [getHistory]: a missing or empty record gives [[]]; so does, through the
    [catch], a text that does not parse.  A record holding the text of another
    kind of value is never written by the application and reads as [[]]. *)
Definition getHistory (ls : LocalStorage) : list HistoryEntry :=
  match ls !! STORAGE_KEY with
  | Some (HistoryJson entries) => entries
  | _ => []
  end.

(** [content.length > 60 ? content.substring(0, 60) + '...' : content] *)
Definition snippetOf (content : string) : string :=
  if (60 <? String.length content)%nat then take 60 content +:+ "..." else content.

Definition countSegments (p : Segment -> bool) (analysis : GrammarAnalysis) : nat :=
  length (List.filter p (segments analysis)).

Definition isCriticalError (s : Segment) : bool :=
  isError s && match severity s with Some critical | None => true | Some suggestion => false end.

Definition isSuggestion (s : Segment) : bool :=
  isError s && match severity s with Some suggestion => true | _ => false end.

(** [analysis.correctedSentence || text] *)
Definition grammarContent (text : string) (analysis : GrammarAnalysis) : string :=
  if String.eqb (correctedSentence analysis) "" then text else correctedSentence analysis.

(** The entries the three save functions build; [uuid] is what
    [crypto.randomUUID()] returned and [now] what [Date.now()] returned. *)
Definition grammarEntry (uuid : string) (now : Z) (text : string)
    (analysis : GrammarAnalysis) : HistoryEntry :=
  let errors := countSegments isCriticalError analysis in
  let suggestions := countSegments isSuggestion analysis in
  let content := grammarContent text analysis in
  {| id := uuid; timestamp := now;
     textSnippet := snippetOf content; fullText := Some content;
     errorCount := errors; suggestionCount := suggestions;
     isPerfect := (errors =? 0)%nat && (suggestions =? 0)%nat;
     type := Some grammar; rewriteStyle := None |}.

Definition rewriteEntry (uuid : string) (now : Z) (analysis : RewriteAnalysis)
    : HistoryEntry :=
  let content := rewrittenText analysis in
  {| id := uuid; timestamp := now;
     textSnippet := snippetOf content; fullText := Some content;
     errorCount := 0; suggestionCount := 0; isPerfect := true;
     type := Some rewrite; rewriteStyle := Some (styleName (style analysis)) |}.

Definition dictionaryEntry (uuid : string) (now : Z) (term : string) : HistoryEntry :=
  {| id := uuid; timestamp := now;
     textSnippet := term; fullText := Some term;
     errorCount := 0; suggestionCount := 0; isPerfect := true;
     type := Some dictionary; rewriteStyle := None |}.

(** [localStorage.setItem(STORAGE_KEY, JSON.stringify([newEntry, ...history]))] *)
Definition prependEntry (entry : HistoryEntry) (ls : LocalStorage) : LocalStorage :=
  <[STORAGE_KEY := HistoryJson (entry :: getHistory ls)]> ls.

Definition saveHistory (uuid : string) (now : Z) (text : string)
    (analysis : GrammarAnalysis) (ls : LocalStorage) : LocalStorage :=
  prependEntry (grammarEntry uuid now text analysis) ls.

Definition saveRewriteHistory (uuid : string) (now : Z) (_text : string)
    (analysis : RewriteAnalysis) (ls : LocalStorage) : LocalStorage :=
  prependEntry (rewriteEntry uuid now analysis) ls.

Definition saveDictionaryHistory (uuid : string) (now : Z) (term : string)
    (ls : LocalStorage) : LocalStorage :=
  prependEntry (dictionaryEntry uuid now term) ls.

Definition clearHistory (ls : LocalStorage) : LocalStorage := delete STORAGE_KEY ls.

(** [h.type === 'grammar' || !h.type] *)
Definition isGrammar (h : HistoryEntry) : bool :=
  match type h with
  | Some grammar | None => true
  | _ => false
  end.

Definition getStats (ls : LocalStorage) : UserStats :=
  let history := getHistory ls in
  let grammarHistory := List.filter isGrammar history in
  let totalChecks := length grammarHistory in
  if (totalChecks =? 0)%nat then
    {| totalChecks := 0; totalErrors := 0; accuracyRate := 0; perfectRuns := 0 |}
  else
    let totalErrors := List.fold_left (fun sum item => (sum + errorCount item)%nat) grammarHistory 0%nat in
    let perfectRuns := length (List.filter isPerfect grammarHistory) in
    {| totalChecks := totalChecks;
       totalErrors := totalErrors;
       accuracyRate :=
         Math_round (PrimFloat.mul (PrimFloat.div (toNumber perfectRuns) (toNumber totalChecks))
                                   (toNumber 100));
       perfectRuns := perfectRuns |}.

(** The object that [exportHistoryJSON] serialises into the backup file. *)
Record ExportData := {
  exportedHistory : list HistoryEntry;
  exportedTheme : option string;
  exportedColorScheme : option string;
  exportedVersion : string
}.

Definition plainText (item : option Item) : option string :=
  match item with
  | Some (Plain text) => Some text
  | _ => None
  end.

(** [exportHistoryJSON]; [None] when [JSON.parse] of the stored history throws. *)
Definition exportHistoryJSON (ls : LocalStorage) : option ExportData :=
  let bundle history :=
    {| exportedHistory := history;
       exportedTheme := plainText (ls !! THEME_KEY);
       exportedColorScheme := plainText (ls !! COLOR_SCHEME_KEY);
       exportedVersion := CURRENT_VERSION |} in
  match ls !! STORAGE_KEY with
  | None => Some (bundle [])
  | Some (HistoryJson entries) => Some (bundle entries)
  | Some (Plain text) => if String.eqb text "" then Some (bundle []) else None
  | Some (StateJson _) => None
  end.

(** What [JSON.parse] makes of a file: arrays hold history entries, as the
    type annotation of [historyToMerge] has it. *)
#[warnings="-register-all"]
Inductive Json : Type :=
| JNull
| JBool (b : bool)
| JNumber (n : Z)
| JString (s : string)
| JArray (items : list HistoryEntry)
| JObject (fields : list (string * Json)).

Definition ofOptionalString (o : option string) : Json :=
  match o with Some s => JString s | None => JNull end.

(** The parsed content of the file that [exportHistoryJSON] writes. *)
Definition backupFile (data : ExportData) : Json :=
  JObject [ ("history", JArray (exportedHistory data));
            ("theme", ofOptionalString (exportedTheme data));
            ("colorScheme", ofOptionalString (exportedColorScheme data));
            ("version", JString (exportedVersion data)) ].

Fixpoint lookupField (key : string) (fields : list (string * Json)) : option Json :=
  match fields with
  | [] => None
  | (k, v) :: rest => if String.eqb k key then Some v else lookupField key rest
  end.

(** [parsed.key]: the outer [None] is the [TypeError] of reading a property of
    [null]; the inner [None] is [undefined]. *)
Definition getProperty (parsed : Json) (key : string) : option (option Json) :=
  match parsed with
  | JNull => None
  | JObject fields => Some (lookupField key fields)
  | _ => Some None
  end.

Definition truthy (v : option Json) : bool :=
  match v with
  | None | Some JNull => false
  | Some (JBool b) => b
  | Some (JNumber n) => negb (n =? 0)
  | Some (JString s) => negb (String.eqb s "")
  | Some (JArray _) | Some (JObject _) => true
  end.

Definition arrayItems (v : option Json) : option (list HistoryEntry) :=
  match v with
  | Some (JArray items) => Some items
  | _ => None
  end.

Record ImportResult := {
  success : bool;
  importedTheme : option Json;
  importedColor : option Json
}.

Definition importFailed : ImportResult :=
  {| success := false; importedTheme := None; importedColor := None |}.

(** [(a, b) => b.timestamp - a.timestamp] *)
Definition newestFirst (a b : HistoryEntry) : Z := timestamp b - timestamp a.

(** The merge of [importHistoryJSON]: entries with an id that the current
    history does not hold, in front of the current history, then sorted. *)
Definition mergeHistory (historyToMerge current : list HistoryEntry) : list HistoryEntry :=
  let currentIds : gset string := list_to_set (List.map id current) in
  let newEntries :=
    List.filter (fun x => negb (String.eqb (id x) "") && negb (bool_decide (id x ∈ currentIds)))
                historyToMerge in
  sort newestFirst (newEntries ++ current).

(** [importHistoryJSON]; [content] is [None] when [JSON.parse] throws. *)
Definition importHistoryJSON (content : option Json) (ls : LocalStorage)
    : ImportResult * LocalStorage :=
  let merge historyToMerge theme color :=
    let merged := mergeHistory historyToMerge (getHistory ls) in
    ({| success := true; importedTheme := theme; importedColor := color |},
     <[STORAGE_KEY := HistoryJson merged]> ls) in
  match content with
  | None => (importFailed, ls)
  | Some parsed =>
    match arrayItems (Some parsed) with
    | Some items => merge items None None
    | None =>
      match getProperty parsed "history" with
      | None => (importFailed, ls)
      | Some history =>
        match (if truthy history then arrayItems history else None) with
        | Some items =>
          merge items (default None (getProperty parsed "theme"))
                      (default None (getProperty parsed "colorScheme"))
        | None => (importFailed, ls)
        end
      end
    end
  end.

Definition saveAppState (state : AppState) (ls : LocalStorage) : LocalStorage :=
  <[STATE_KEY := StateJson state]> ls.

(** [storedVersion === CURRENT_VERSION] *)
Definition isCurrentVersion (storedVersion : option Item) : bool :=
  match storedVersion with
  | Some (Plain version) => String.eqb version CURRENT_VERSION
  | _ => false
  end.

(** [getAppState]: the loaded state, if any, and the storage it leaves. *)
Definition getAppState (ls : LocalStorage) : option AppState * LocalStorage :=
  if isCurrentVersion (ls !! VERSION_KEY) then
    match ls !! STATE_KEY with
    | Some (StateJson state) => (Some state, ls)
    | _ => (None, ls)
    end
  else
    (None, <[VERSION_KEY := Plain CURRENT_VERSION]> (delete STATE_KEY ls)).

Definition saveApiKey (key : string) (ls : LocalStorage) : LocalStorage :=
  <[API_KEY_STORAGE_KEY := Plain key]> ls.

Definition getStoredApiKey (ls : LocalStorage) : option string :=
  plainText (ls !! API_KEY_STORAGE_KEY).

Definition removeApiKey (ls : LocalStorage) : LocalStorage :=
  delete API_KEY_STORAGE_KEY ls.

(** *** Notions used in the statements *)

(** The two shapes that [importHistoryJSON] accepts: a bare array, or an
    object whose [history] is an array. *)
Definition hasImportShape (parsed : Json) : bool :=
  match parsed with
  | JArray _ => true
  | JObject fields =>
    match lookupField "history" fields with
    | Some (JArray _) => true
    | _ => false
    end
  | _ => false
  end.

(** Newest first: [a] may stand in front of [b]. *)
Definition newestFirstOrder (a b : HistoryEntry) : Prop := timestamp b <= timestamp a.

(** The incoming entries that the merge takes. *)
Definition accepted (historyToMerge current : list HistoryEntry) : list HistoryEntry :=
  List.filter
    (fun x => negb (String.eqb (id x) "")
              && negb (bool_decide (id x ∈ (list_to_set (List.map id current) : gset string))))
    historyToMerge.

(** The history array of a file of one of the two accepted shapes. *)
Definition fileEntries (parsed : Json) : option (list HistoryEntry) :=
  match parsed with
  | JArray items => Some items
  | JObject fields =>
    match lookupField "history" fields with
    | Some (JArray items) => Some items
    | _ => None
    end
  | _ => None
  end.

(** What a successful import resolves with. *)
Definition importSucceeded (parsed : Json) : ImportResult :=
  match parsed with
  | JArray _ => {| success := true; importedTheme := None; importedColor := None |}
  | _ => {| success := true;
            importedTheme := default None (getProperty parsed "theme");
            importedColor := default None (getProperty parsed "colorScheme") |}
  end.

(** *** Sample stores and files *)

(** A corrected sentence of 61 characters, and a term of 61 characters. *)
Definition sixtyOne : string :=
  "0123456789012345678901234567890123456789012345678901234567890".

Definition sixtyOneAnalysis : GrammarAnalysis :=
  {| segments := []; correctedSentence := sixtyOne |}.

(** A storage written by version 1.0.2, holding all four records. *)
Definition olderEntry : HistoryEntry :=
  {| id := "a"; timestamp := 100; textSnippet := "Hello."; fullText := Some "Hello.";
     errorCount := 0; suggestionCount := 0; isPerfect := true;
     type := Some grammar; rewriteStyle := None |}.

Definition someState : AppState :=
  {| inputText := "Helo."; grammarResult := None; rewriteResult := None;
     colorScheme := "blue" |}.

Definition storageOfOlderVersion : LocalStorage :=
  <[VERSION_KEY := Plain "1.0.2"]>
    (<[STATE_KEY := StateJson someState]>
      (<[API_KEY_STORAGE_KEY := Plain "secret"]>
        (<[STORAGE_KEY := HistoryJson [olderEntry]]> ∅))).

Definition storageWithHistory : LocalStorage :=
  <[STORAGE_KEY := HistoryJson [olderEntry]]> ∅.

(** Forty grammar checks, the first 23 of them perfect. *)
Definition gradedEntry (n : nat) : HistoryEntry :=
  let perfect := (n <? 23)%nat in
  {| id := String (ascii_of_nat (48 + n)) ""; timestamp := 1000 - Z.of_nat n;
     textSnippet := "Fine."; fullText := Some "Fine.";
     errorCount := if perfect then 0 else 1; suggestionCount := 0;
     isPerfect := perfect; type := Some grammar; rewriteStyle := None |}.

Definition fortyChecks : LocalStorage :=
  <[STORAGE_KEY := HistoryJson (List.map gradedEntry (List.seq 0 40))]> ∅.

(** A backup made elsewhere, with a clock that runs ahead. *)
Definition laterEntry : HistoryEntry :=
  {| id := "b"; timestamp := 200; textSnippet := "Good day."; fullText := Some "Good day.";
     errorCount := 0; suggestionCount := 0; isPerfect := true;
     type := Some grammar; rewriteStyle := None |}.

Definition cleanAnalysis : GrammarAnalysis :=
  {| segments := [ {| segText := "Fine."; isError := false; severity := None |} ];
     correctedSentence := "Fine." |}.

(** The storage after that backup is imported into an empty store and one
    grammar check is saved at time 150: the new entry stands in front of an
    entry with a later timestamp. *)
Definition storageAfterImportAndCheck : LocalStorage :=
  saveHistory "c" 150 "Fine." cleanAnalysis
    (snd (importHistoryJSON (Some (JArray [laterEntry])) ∅)).

(** A backup that holds the entry of [storageWithHistory] and a later one. *)
Definition backupWithBoth : Json :=
  JObject [ ("history", JArray [laterEntry; olderEntry]); ("theme", JString "dark") ].

Definition exportOfStorageWithHistory : ExportData :=
  {| exportedHistory := [olderEntry]; exportedTheme := None;
     exportedColorScheme := None; exportedVersion := CURRENT_VERSION |}.

End StorageService.

(** ** Profile: the activity calendar *)

Module Profile.

Import StorageService.

(** A [Date] is its time value, the milliseconds since the epoch that
    [getTime] returns.  The arithmetic on time values is that of
    ECMAScript: [Day], [TimeWithinDay], [LocalTime] and [UTC]. *)
Definition msPerDay : Z := 86400000.

Definition Day (t : Z) : Z := t / msPerDay.

Definition TimeWithinDay (t : Z) : Z := t mod msPerDay.

(** A cell of the grid.  [date] is the calendar day that the [YYYY-MM-DD]
    string of the source names, as the number of days from 1 January 1970
    to it. *)
Record DayCell := {
  date : Z;
  count : nat;
  isFuture : bool
}.

(** The day of the week of a calendar day: 0 is Sunday; day 0 was a Thursday. *)
Definition getDay (day : Z) : Z := (day + 4) mod 7.

Definition weeksToShow : nat := 52.

Section Calendar.
(** [LocalTZA(t, isUTC)], the offset of the local time zone in milliseconds:
    at the instant [t] when [isUTC] is [true], at the local time [t] when it
    is [false].  A local time that a clock change skips or repeats is read
    with the offset in force before the change. *)
Variable LocalTZA : Z -> bool -> Z.

Definition LocalTime (t : Z) : Z := t + LocalTZA t true.

Definition UTC (t : Z) : Z := t - LocalTZA t false.

(** [toLocalDateString(new Date(t))]: the local calendar day of an instant,
    read with [getFullYear], [getMonth] and [getDate]. *)
Definition localDay (t : Z) : Z := Day (LocalTime t).

(** [date.setHours(0, 0, 0, 0)] *)
Definition setHoursZero (date : Z) : Z := UTC (Day (LocalTime date) * msPerDay).

(** [date.setDate(date.getDate() + k)]: [k] days later in the local
    calendar, at the same local time of day. *)
Definition addDays (k : Z) (date : Z) : Z :=
  let t := LocalTime date in
  UTC ((Day t + k) * msPerDay + TimeWithinDay t).

(** [history.forEach(entry => activityMap.set(dateStr, (activityMap.get(dateStr) || 0) + 1))] *)
Definition recordActivity (activityMap : gmap Z nat) (entry : HistoryEntry) : gmap Z nat :=
  let dateStr := localDay (timestamp entry) in
  <[dateStr := (default 0%nat (activityMap !! dateStr) + 1)%nat]> activityMap.

Definition buildActivityMap (history : list HistoryEntry) : gmap Z nat :=
  List.fold_left recordActivity history ∅.

(** The cell pushed for [loopDate]; [today] and [loopDate] are time values
    and [isFuture] is [loopDate.getTime() > today.getTime()]. *)
Definition dayCell (activityMap : gmap Z nat) (today loopDate : Z) : DayCell :=
  let dateStr := localDay loopDate in
  {| date := dateStr;
     count := default 0%nat (activityMap !! dateStr);
     isFuture := today <? loopDate |}.

(** The inner loop: [d] more days from [loopDate]; returns the days pushed
    and the advanced [loopDate]. *)
Fixpoint weekLoop (activityMap : gmap Z nat) (today : Z) (d : nat) (loopDate : Z)
    : list DayCell * Z :=
  match d with
  | O => ([], loopDate)
  | S d' =>
    let cell := dayCell activityMap today loopDate in
    let rest := weekLoop activityMap today d' (addDays 1 loopDate) in
    (cell :: fst rest, snd rest)
  end.

(** The outer loop: [w] more weeks from [loopDate]. *)
Fixpoint weeksLoop (activityMap : gmap Z nat) (today : Z) (w : nat) (loopDate : Z)
    : list (list DayCell) :=
  match w with
  | O => []
  | S w' =>
    let week := weekLoop activityMap today 7 loopDate in
    fst week :: weeksLoop activityMap today w' (snd week)
  end.

(** [activityWeeks]; [now] is the instant at which [new Date()] is evaluated.
    [currentWeekSunday] is a copy of [today] set to
    [today.getDate() - today.getDay()]. *)
Definition activityWeeks (history : list HistoryEntry) (now : Z) : list (list DayCell) :=
  let activityMap := buildActivityMap history in
  let today := setHoursZero now in
  let currentWeekSunday := addDays (- getDay (localDay today)) today in
  let startDate := addDays (- ((Z.of_nat weeksToShow - 1) * 7)) currentWeekSunday in
  weeksLoop activityMap today weeksToShow startDate.

(** *** Notions used in the statements *)

(** The number of history entries on a calendar day. *)
Definition entriesOn (history : list HistoryEntry) (day : Z) : nat :=
  length (List.filter (fun entry => localDay (timestamp entry) =? day) history).

(** The first day of the grid. *)
Definition gridStart (now : Z) : Z := localDay now - getDay (localDay now) - 357.

(** The instant that stands for local midnight of a calendar day. *)
Definition startOfDay (day : Z) : Z := UTC (day * msPerDay).

(** The day has a local midnight: no clock change skips it. *)
Definition hasMidnight (day : Z) : Prop := LocalTime (startOfDay day) = day * msPerDay.

(** The offset of the zone varies by less than a day. *)
Definition offsetsWithinADay : Prop :=
  forall a b, LocalTZA a false - LocalTZA b false < msPerDay.

(** The cell of a calendar day when days are compared as days. *)
Definition calendarCell (history : list HistoryEntry) (today day : Z) : DayCell :=
  {| date := day; count := entriesOn history day; isFuture := today <? day |}.

End Calendar.

(** [n] consecutive days from [start]. *)
Fixpoint daysFrom (start : Z) (n : nat) : list Z :=
  match n with
  | O => []
  | S n' => start :: daysFrom (start + 1) n'
  end.

(** *** Sample calendars *)

(** Local time is UTC. *)
Definition utcZone (t : Z) (isUTC : bool) : Z := 0.

Definition hour : Z := 3600000.

(** Europe/Berlin in 2026: one hour ahead of UTC, two from 29 March 01:00 UTC
    to 25 October 01:00 UTC; the clock changes at 02:00 and 03:00 local time. *)
Definition berlin2026 (t : Z) (isUTC : bool) : Z :=
  let summerFrom := 20541 * msPerDay + 1 * hour in
  let summerTo := 20751 * msPerDay + 1 * hour in
  if isUTC then
    if (summerFrom <=? t) && (t <? summerTo) then 2 * hour else 1 * hour
  else
    if t <? summerFrom + 2 * hour then 1 * hour
    else if t <? summerTo + 2 * hour then 2 * hour
    else 1 * hour.

(** Africa/Cairo in 2026: two hours ahead of UTC, three from Friday 24 April,
    when the clock goes from 00:00 to 01:00, to the end of Thursday
    29 October; that Friday has no local midnight. *)
Definition cairo2026 (t : Z) (isUTC : bool) : Z :=
  let summerFrom := 20567 * msPerDay - 2 * hour in
  let summerTo := 20756 * msPerDay - 3 * hour in
  if isUTC then
    if (summerFrom <=? t) && (t <? summerTo) then 3 * hour else 2 * hour
  else
    if t <? summerFrom + 3 * hour then 2 * hour
    else if t <? summerTo + 3 * hour then 3 * hour
    else 2 * hour.

Definition entryAt (name : string) (time : Z) : HistoryEntry :=
  {| id := name; timestamp := time; textSnippet := "Fine."; fullText := Some "Fine.";
     errorCount := 0; suggestionCount := 0; isPerfect := true;
     type := Some grammar; rewriteStyle := None |}.

(** Noon UTC of Monday 2 November 2026, and noon of the day after. *)
Definition mondayNoon : Z := 1793577600000 + 43200000.
Definition tuesdayNoon : Z := mondayNoon + 86400000.

End Profile.

(** ** App: the request handlers and the shared request id *)

Module App.

Import Js.
Import StorageService (GrammarAnalysis, RewriteAnalysis, RewriteStyle, LocalStorage).

Inductive LoadingState : Type := IDLE | LOADING | SUCCESS | ERROR.

Inductive ViewMode : Type := checker | menu | profile | settings.

Record QuickRewriteState := {
  styles : list RewriteStyle;
  selectedStyle : option RewriteStyle;
  result : option string;
  isLoading : bool
}.

(** [alert(t.errors.permissionDenied)] and [alert(t.errors.generic)] *)
Inductive Alert : Type := permissionDeniedAlert | genericAlert.

(** The React state that the handlers set. *)
Record UiState := {
  inputText : string;
  grammarResult : option GrammarAnalysis;
  rewriteResult : option RewriteAnalysis;
  quickRewriteState : QuickRewriteState;
  loadingState : LoadingState;
  currentView : ViewMode;
  historyUpdateTrigger : nat
}.

(** Everything a handler can change: the request id cell
    ([activeRequestIdRef.current]), the React state, [localStorage], and the
    alerts and console errors issued so far (latest first). *)
Record World := {
  activeRequestId : Z;
  ui : UiState;
  storage : LocalStorage;
  alerts : list Alert;
  consoleErrors : list Error
}.

(** What the environment hands to a continuation: the results of
    [crypto.randomUUID()], of [Date.now()], and of the random shuffle of the
    ten styles. *)
Record Env := {
  uuid : string;
  now : Z;
  shuffled : list RewriteStyle
}.

(** The part of a handler that waits for the remote call: its [requestId]
    and the input text its closure holds. *)
Record Pending := {
  requestId : Z;
  capturedText : string
}.

Definition noQuickRewrite : QuickRewriteState :=
  {| styles := []; selectedStyle := None; result := None; isLoading := false |}.

Definition setActiveRequestId (value : Z) (w : World) : World :=
  {| activeRequestId := value; ui := ui w; storage := storage w;
     alerts := alerts w; consoleErrors := consoleErrors w |}.

Definition setUi (f : UiState -> UiState) (w : World) : World :=
  {| activeRequestId := activeRequestId w; ui := f (ui w); storage := storage w;
     alerts := alerts w; consoleErrors := consoleErrors w |}.

Definition setStorage (f : LocalStorage -> LocalStorage) (w : World) : World :=
  {| activeRequestId := activeRequestId w; ui := ui w; storage := f (storage w);
     alerts := alerts w; consoleErrors := consoleErrors w |}.

Definition alert (a : Alert) (w : World) : World :=
  {| activeRequestId := activeRequestId w; ui := ui w; storage := storage w;
     alerts := a :: alerts w; consoleErrors := consoleErrors w |}.

Definition consoleError (error : Error) (w : World) : World :=
  {| activeRequestId := activeRequestId w; ui := ui w; storage := storage w;
     alerts := alerts w; consoleErrors := error :: consoleErrors w |}.

Definition setInputText (v : string) (s : UiState) : UiState :=
  {| inputText := v; grammarResult := grammarResult s; rewriteResult := rewriteResult s;
     quickRewriteState := quickRewriteState s; loadingState := loadingState s;
     currentView := currentView s; historyUpdateTrigger := historyUpdateTrigger s |}.

Definition setGrammarResult (v : option GrammarAnalysis) (s : UiState) : UiState :=
  {| inputText := inputText s; grammarResult := v; rewriteResult := rewriteResult s;
     quickRewriteState := quickRewriteState s; loadingState := loadingState s;
     currentView := currentView s; historyUpdateTrigger := historyUpdateTrigger s |}.

Definition setRewriteResult (v : option RewriteAnalysis) (s : UiState) : UiState :=
  {| inputText := inputText s; grammarResult := grammarResult s; rewriteResult := v;
     quickRewriteState := quickRewriteState s; loadingState := loadingState s;
     currentView := currentView s; historyUpdateTrigger := historyUpdateTrigger s |}.

Definition setQuickRewriteState (f : QuickRewriteState -> QuickRewriteState) (s : UiState)
    : UiState :=
  {| inputText := inputText s; grammarResult := grammarResult s;
     rewriteResult := rewriteResult s; quickRewriteState := f (quickRewriteState s);
     loadingState := loadingState s; currentView := currentView s;
     historyUpdateTrigger := historyUpdateTrigger s |}.

Definition setLoadingState (v : LoadingState) (s : UiState) : UiState :=
  {| inputText := inputText s; grammarResult := grammarResult s;
     rewriteResult := rewriteResult s; quickRewriteState := quickRewriteState s;
     loadingState := v; currentView := currentView s;
     historyUpdateTrigger := historyUpdateTrigger s |}.

Definition setCurrentView (v : ViewMode) (s : UiState) : UiState :=
  {| inputText := inputText s; grammarResult := grammarResult s;
     rewriteResult := rewriteResult s; quickRewriteState := quickRewriteState s;
     loadingState := loadingState s; currentView := v;
     historyUpdateTrigger := historyUpdateTrigger s |}.

Definition setHistoryUpdateTrigger (f : nat -> nat) (s : UiState) : UiState :=
  {| inputText := inputText s; grammarResult := grammarResult s;
     rewriteResult := rewriteResult s; quickRewriteState := quickRewriteState s;
     loadingState := loadingState s; currentView := currentView s;
     historyUpdateTrigger := f (historyUpdateTrigger s) |}.

(** [error?.message || error?.toString() || ''] *)
Definition handlerMsg (error : Error) : string :=
  if String.eqb (message error) "" then asText error else message error.

(** The body of both [catch] blocks after their guard. *)
Definition reportError (error : Error) (w : World) : World :=
  let w := consoleError error w in
  let w := setUi (setLoadingState ERROR) w in
  if includes (handlerMsg error) "PERMISSION_DENIED" then
    setUi (setCurrentView settings) (alert permissionDeniedAlert w)
  else
    alert genericAlert w.

(** The statements that both handlers run before their [await]. *)
Definition startLoading (requestId : Z) (w : World) : World :=
  let w := setActiveRequestId requestId w in
  let w := setUi (setLoadingState LOADING) w in
  let w := setUi (setGrammarResult None) w in
  let w := setUi (setRewriteResult None) w in
  setUi (setQuickRewriteState (fun _ => noQuickRewrite)) w.

(** [handleCheckGrammar] up to its [await]; [now] is what [Date.now()]
    returns.  No continuation is left when the input is blank. *)
Definition handleCheckGrammar (now : Z) (w : World) : World * option Pending :=
  if trimIsEmpty (inputText (ui w)) then (w, None)
  else
    let requestId := now in
    (startLoading requestId w,
     Some {| requestId := requestId; capturedText := inputText (ui w) |}).

(** [handleCheckGrammar] from its [await] on, once [checkGrammar] has settled. *)
Definition handleCheckGrammar_continue (pending : Pending)
    (settled : Settled GrammarAnalysis) (env : Env) (w : World) : World :=
  match settled with
  | Resolved analysis =>
    if negb (activeRequestId w =? requestId pending) then w
    else
      let w := setUi (setGrammarResult (Some analysis)) w in
      let w := setUi (setLoadingState SUCCESS) w in
      let w := setStorage (StorageService.saveHistory (uuid env) (now env)
                             (capturedText pending) analysis) w in
      let w := setUi (setHistoryUpdateTrigger S) w in
      if negb (activeRequestId w =? requestId pending) then w
      else
        setUi (setQuickRewriteState (fun prev =>
                 {| styles := firstn 4 (shuffled env); selectedStyle := None;
                    result := None; isLoading := false |})) w
  | Rejected error =>
    if negb (activeRequestId w =? requestId pending) then w
    else reportError error w
  end.

(** [handleRewrite] up to its [await]. *)
Definition handleRewrite (style : RewriteStyle) (now : Z) (w : World)
    : World * option Pending :=
  if trimIsEmpty (inputText (ui w)) then (w, None)
  else
    let requestId := now in
    (startLoading requestId w,
     Some {| requestId := requestId; capturedText := inputText (ui w) |}).

(** [handleRewrite] from its [await] on, once [rewriteText] has settled. *)
Definition handleRewrite_continue (pending : Pending)
    (settled : Settled RewriteAnalysis) (env : Env) (w : World) : World :=
  match settled with
  | Resolved analysis =>
    if negb (activeRequestId w =? requestId pending) then w
    else
      let w := setUi (setRewriteResult (Some analysis)) w in
      let w := setUi (setLoadingState SUCCESS) w in
      let w := setStorage (StorageService.saveRewriteHistory (uuid env) (now env)
                             (capturedText pending) analysis) w in
      setUi (setHistoryUpdateTrigger S) w
  | Rejected error =>
    if negb (activeRequestId w =? requestId pending) then w
    else reportError error w
  end.

Definition handleClear (w : World) : World :=
  let w := setActiveRequestId 0 w in
  let w := setUi (setInputText "") w in
  let w := setUi (setGrammarResult None) w in
  let w := setUi (setRewriteResult None) w in
  let w := setUi (setQuickRewriteState (fun _ => noQuickRewrite)) w in
  setUi (setLoadingState IDLE) w.

Definition handleStop (w : World) : World :=
  setUi (setLoadingState IDLE) (setActiveRequestId 0 w).

(** *** Notions used in the statements *)

(** The two action classes, and how the remote call of either settles. *)
Inductive Request : Type :=
| CheckRequest
| RewriteRequest (style : RewriteStyle).

Inductive Outcome : Type :=
| CheckSettled (settled : Settled GrammarAnalysis)
| RewriteSettled (settled : Settled RewriteAnalysis).

Definition begin (request : Request) (now : Z) (w : World) : World * option Pending :=
  match request with
  | CheckRequest => handleCheckGrammar now w
  | RewriteRequest style => handleRewrite style now w
  end.

Definition resume (pending : Pending) (outcome : Outcome) (env : Env) (w : World) : World :=
  match outcome with
  | CheckSettled settled => handleCheckGrammar_continue pending settled env w
  | RewriteSettled settled => handleRewrite_continue pending settled env w
  end.

(** *** Sample session *)

(** A session in which the user has typed a sentence. *)
Definition typedWorld : World :=
  {| activeRequestId := 0;
     ui := {| inputText := "Helo wrld."; grammarResult := None; rewriteResult := None;
              quickRewriteState := noQuickRewrite; loadingState := IDLE;
              currentView := checker; historyUpdateTrigger := 0 |};
     storage := ∅; alerts := []; consoleErrors := [] |}.

Definition analysisA : GrammarAnalysis :=
  {| StorageService.segments := []; StorageService.correctedSentence := "Hello world." |}.

Definition analysisB : GrammarAnalysis :=
  {| StorageService.segments := []; StorageService.correctedSentence := "Hello, world." |}.

Definition rewriteB : RewriteAnalysis :=
  {| StorageService.originalText := "Helo wrld.";
     StorageService.rewrittenText := "Greetings, world.";
     StorageService.style := StorageService.Formal |}.

Definition envA : Env := {| uuid := "uuid-a"; now := 1800; shuffled := [] |}.
Definition envB : Env := {| uuid := "uuid-b"; now := 1500; shuffled := [] |}.

Definition overloaded : Error :=
  {| message := "503 Overloaded"; errorField := None; asJson := Some "{}";
     asText := "Error: 503 Overloaded" |}.

(** The continuation left by a request begun at clock reading 1000. *)
Definition pendingAt1000 : Pending :=
  {| requestId := 1000; capturedText := "Helo wrld." |}.

End App.

(** ** String helpers of the components *)

Module JsText.

Import Js.

(** The string without its leading characters that satisfy [p]. *)
Fixpoint dropLeading (p : ascii -> bool) (s : string) : string :=
  match s with
  | EmptyString => EmptyString
  | String c rest => if p c then dropLeading p rest else s
  end.

(** The string without its trailing characters that satisfy [p]. *)
Fixpoint dropTrailing (p : ascii -> bool) (s : string) : string :=
  match s with
  | EmptyString => EmptyString
  | String c rest =>
    let kept := dropTrailing p rest in
    if p c && String.eqb kept "" then EmptyString else String c kept
  end.

Definition strip (p : ascii -> bool) (s : string) : string :=
  dropTrailing p (dropLeading p s).

(** [s.trim()] *)
Definition trim (s : string) : string := strip isWhiteSpace s.

Definition isSlash (c : ascii) : bool := Ascii.eqb c "/"%char.

Definition isQuote (c : ascii) : bool :=
  Ascii.eqb c (ascii_of_nat 34) || Ascii.eqb c (ascii_of_nat 39).

(** The string without its first character, when that satisfies [p]. *)
Definition dropFirstIf (p : ascii -> bool) (s : string) : string :=
  match s with
  | EmptyString => EmptyString
  | String c rest => if p c then rest else s
  end.

(** The string without its last character, when that satisfies [p]. *)
Fixpoint dropLastIf (p : ascii -> bool) (s : string) : string :=
  match s with
  | EmptyString => EmptyString
  | String c rest =>
    match rest with
    | EmptyString => if p c then EmptyString else s
    | String _ _ => String c (dropLastIf p rest)
    end
  end.

(** [text.replace(/^["']|["']$/g, '')]: one quote less at the start, then
    one quote less at the end of what is left. *)
Definition stripQuotes (text : string) : string :=
  dropLastIf isQuote (dropFirstIf isQuote text).

(** *** Notions used in the statements *)

Fixpoint allChars (p : ascii -> bool) (s : string) : bool :=
  match s with
  | EmptyString => true
  | String c rest => p c && allChars p rest
  end.

Definition startsWith (p : ascii -> bool) (s : string) : bool :=
  match s with
  | EmptyString => false
  | String c _ => p c
  end.

Fixpoint endsWith (p : ascii -> bool) (s : string) : bool :=
  match s with
  | EmptyString => false
  | String c rest =>
    match rest with
    | EmptyString => p c
    | String _ _ => endsWith p rest
    end
  end.

End JsText.

(** ** InteractiveText: words that swap with their pronunciation *)

Module InteractiveText.

Import Js JsText.

Record WordData := {
  text : string;
  ipa : string
}.

(** [handleToggle(index)]: the new set of swapped indices.  Reading
    [words[index].ipa] past the end throws before any state is set. *)
Definition handleToggle (words : list WordData) (index : nat) (swappedIndices : gset nat)
    : gset nat :=
  match words !! index with
  | None => swappedIndices
  | Some word =>
    if String.eqb (ipa word) "" then swappedIndices
    else if bool_decide (index ∈ swappedIndices) then swappedIndices ∖ {[index]}
    else swappedIndices ∪ {[index]}
  end.

(** [ipa.replace(/^\/+|\/+$/g, '')] *)
Definition formatIpa (ipa : string) : string := strip isSlash ipa.

(** What the span of [item] at [index] shows. *)
Definition shownText (swappedIndices : gset nat) (index : nat) (item : WordData) : string :=
  let isSwapped := bool_decide (index ∈ swappedIndices) in
  let hasIpa := negb (String.eqb (ipa item) "") in
  if negb hasIpa then text item
  else if isSwapped then formatIpa (ipa item) else text item.

(** *** Notions used in the statements *)

(** The set after the clicks of [indices], in order. *)
Definition afterClicks (words : list WordData) (indices : list nat) (swappedIndices : gset nat)
    : gset nat :=
  List.fold_left (fun swapped index => handleToggle words index swapped) indices swappedIndices.

End InteractiveText.

(** ** geminiService: the client and the three remote operations *)

Module GeminiClient.

Import Js JsText GeminiService StorageService.

(** A string that is present and not empty. *)
Definition truthyString (value : option string) : bool :=
  match value with
  | Some text => negb (String.eqb text "")
  | None => false
  end.

(** [getGenAIClient]: the key the client is made with, or the error thrown;
    [envKey] is [process.env.API_KEY]. *)
Definition getGenAIClient (ls : LocalStorage) (envKey : option string) : string + Error :=
  let apiKey := if truthyString (getStoredApiKey ls) then getStoredApiKey ls else envKey in
  match apiKey with
  | Some key => if String.eqb key "" then inr (newError "MISSING_API_KEY") else inl key
  | None => inr (newError "MISSING_API_KEY")
  end.

Section Operations.
(** The storage and the environment key at the time of the attempts. *)
Variable ls : LocalStorage.
Variable envKey : option string.
(** [genAI.models.generateContent(...)]: how the call made with [key] at
    attempt [k] settles, as the [text] of the response. *)
Variable generateContent : string -> nat -> Settled (option string).

(** One attempt of the function that [checkGrammar] hands to the retry
    wrapper; [parse] is [JSON.parse], rejecting when it throws. *)
Definition checkGrammarAttempt (parse : string -> Settled GrammarAnalysis) (k : nat)
    : Settled GrammarAnalysis :=
  match getGenAIClient ls envKey with
  | inr error => Rejected error
  | inl key =>
    match generateContent key k with
    | Rejected error => Rejected error
    | Resolved responseText =>
      if truthyString responseText then parse (default "" responseText)
      else Rejected (newError "No response text from Gemini")
    end
  end.

Definition checkGrammar (parse : string -> Settled GrammarAnalysis)
    : option (Settled GrammarAnalysis * list Event) :=
  retryWithBackoff (checkGrammarAttempt parse) defaultRetries defaultInitialDelay.

(** One attempt of [rewriteText]; [parse] gives the parsed [data] fields put
    into the result. *)
Definition rewriteTextAttempt (parse : string -> Settled RewriteAnalysis) (k : nat)
    : Settled RewriteAnalysis :=
  match getGenAIClient ls envKey with
  | inr error => Rejected error
  | inl key =>
    match generateContent key k with
    | Rejected error => Rejected error
    | Resolved responseText =>
      if truthyString responseText then parse (default "" responseText)
      else Rejected (newError "No response text from Gemini")
    end
  end.

Definition rewriteText (parse : string -> Settled RewriteAnalysis)
    : option (Settled RewriteAnalysis * list Event) :=
  retryWithBackoff (rewriteTextAttempt parse) defaultRetries defaultInitialDelay.

(** One attempt of [generateExampleSentence]. *)
Definition generateExampleAttempt (k : nat) : Settled string :=
  match getGenAIClient ls envKey with
  | inr error => Rejected error
  | inl key =>
    match generateContent key k with
    | Rejected error => Rejected error
    | Resolved responseText =>
      let text := trim (default "" responseText) in
      if String.eqb text "" then Rejected (newError "No text generated")
      else Resolved (stripQuotes text)
    end
  end.

Definition generateExampleSentence : option (Settled string * list Event) :=
  retryWithBackoff generateExampleAttempt defaultRetries defaultInitialDelay.

End Operations.

(** *** Notions used in the statements *)

(** What the retry wrapper throws for a failure it does not retry. *)
Definition thrownFor (error : Error) : Error :=
  match classify error with
  | PermissionDenied => newError "PERMISSION_DENIED"
  | _ => error
  end.

(** *** Sample storage and responses *)

Definition storageWithKey : LocalStorage :=
  <[API_KEY_STORAGE_KEY := Plain "user-key"]> ∅.

Definition forbidden : Error :=
  {| message := "Request failed with status 403"; errorField := None;
     asJson := Some "{}"; asText := "Error: Request failed with status 403" |}.

Definition rateLimitedThenForbidden (k : nat) : Settled nat :=
  if (k <? 1)%nat then Rejected rateLimitedError else Rejected forbidden.

Definition alwaysRateLimited (k : nat) : Settled nat := Rejected rateLimitedError.

Definition quotedAnswer (key : string) (k : nat) : Settled (option string) :=
  Resolved (Some "  'The cat sat.'  ").

End GeminiClient.

(** ** DictionaryModal: the entries of a look-up *)

Module DictionaryModal.

Record DictionaryPhonetic := {
  phoneticText : option string;   (* text? *)
  audio : option string           (* audio? *)
}.

(** The fields of a dictionary entry that the modal computes with. *)
Record DictionaryEntry := {
  word : string;
  phonetic : option string;
  phonetics : list DictionaryPhonetic
}.

End DictionaryModal.

(** ** SettingsPage: saving and removing the API key *)

Module SettingsPage.

Import Js JsText StorageService.

(** The React state of the page. *)
Record SettingsState := {
  apiKey : string;
  isSaved : bool
}.

(** [handleSave]; the timer that resets [isSaved] two seconds later is not
    part of it. *)
Definition handleSave (state : SettingsState) (ls : LocalStorage)
    : SettingsState * LocalStorage :=
  if String.eqb (trim (apiKey state)) "" then (state, ls)
  else ({| apiKey := apiKey state; isSaved := true |}, saveApiKey (trim (apiKey state)) ls).

Definition handleRemove (state : SettingsState) (ls : LocalStorage)
    : SettingsState * LocalStorage :=
  ({| apiKey := ""; isSaved := false |}, removeApiKey ls).

End SettingsPage.

(** ** Profile: usage breakdown, history table and restore *)

Module ProfileView.

Import Js StorageService.

(** The pie chart counts. *)
Definition grammarCount (history : list HistoryEntry) : nat :=
  length (List.filter isGrammar history).

Definition rewriteCount (history : list HistoryEntry) : nat :=
  length (List.filter (fun h => match type h with Some rewrite => true | _ => false end)
                      history).

Definition dictCount (history : list HistoryEntry) : nat :=
  length (List.filter (fun h => match type h with Some dictionary => true | _ => false end)
                      history).

Definition totalUsage (history : list HistoryEntry) : nat :=
  (grammarCount history + rewriteCount history + dictCount history)%nat.

(** [history.filter(h => h.type !== 'dictionary')]: the rows of the table. *)
Definition tableRows (history : list HistoryEntry) : list HistoryEntry :=
  List.filter (fun h => match type h with Some dictionary => false | _ => true end) history.

(** The four dots of [getResultBadge]. *)
Inductive Badge : Type := purple | green | red | yellow.

Definition getResultBadge (entry : HistoryEntry) : Badge :=
  match type entry with
  | Some rewrite => purple
  | _ =>
    if isPerfect entry then green
    else if (0 <? errorCount entry)%nat then red
    else yellow
  end.




End ProfileView.

(** ** App: quick rewrite, dictionary search and swipe navigation *)

Module AppMore.

Import Js App.
Import StorageService (GrammarAnalysis, RewriteAnalysis, RewriteStyle, LocalStorage).
Import DictionaryModal (DictionaryEntry).

(** [handleQuickRewrite] up to its [await]: the world, and the text sent to
    [rewriteText] when a request is made. *)
Definition handleQuickRewrite (style : RewriteStyle) (w : World) : World * option string :=
  match grammarResult (ui w) with
  | None => (w, None)
  | Some analysis =>
    (setUi (setQuickRewriteState (fun prev =>
              {| styles := styles prev; selectedStyle := Some style;
                 result := result prev; isLoading := true |})) w,
     Some (StorageService.correctedSentence analysis))
  end.

(** [handleQuickRewrite] from its [await] on. *)
Definition handleQuickRewrite_continue (settled : Settled RewriteAnalysis) (w : World) : World :=
  match settled with
  | Resolved analysis =>
    setUi (setQuickRewriteState (fun prev =>
             {| styles := styles prev; selectedStyle := selectedStyle prev;
                result := Some (StorageService.rewrittenText analysis);
                isLoading := false |})) w
  | Rejected error =>
    let w := consoleError error w in
    let w := setUi (setQuickRewriteState (fun prev =>
                      {| styles := styles prev; selectedStyle := selectedStyle prev;
                         result := result prev; isLoading := false |})) w in
    if includes (handlerMsg error) "PERMISSION_DENIED" then
      setUi (setCurrentView settings) (alert permissionDeniedAlert w)
    else w
  end.

Definition handleStopQuickRewrite (w : World) : World :=
  setUi (setQuickRewriteState (fun prev =>
           {| styles := styles prev; selectedStyle := selectedStyle prev;
              result := result prev; isLoading := false |})) w.

(** The dictionary state of the component. *)
Record DictionaryUi := {
  isDictionaryOpen : bool;
  dictionaryTerm : string;
  dictionaryData : option (list DictionaryEntry);
  dictionaryLoading : bool;
  dictionaryError : option string
}.

Record Screen := {
  world : World;
  dictionary : DictionaryUi
}.

(** How the lookup of a term ends: the parsed entries, a response that is
    not ok, a rejected [fetch], or a rejected [response.json()]. *)
Inductive Lookup : Type :=
| Found (data : list DictionaryEntry)
| NotOk
| FetchRejected
| JsonRejected.

(** [handleDictionarySearch] up to its [await]; [true] when a lookup is made. *)
Definition handleDictionarySearch (term : string) (screen : Screen) : Screen * bool :=
  if trimIsEmpty term then (screen, false)
  else
    ({| world := world screen;
        dictionary := {| isDictionaryOpen := true; dictionaryTerm := term;
                         dictionaryData := None; dictionaryLoading := true;
                         dictionaryError := None |} |},
     true).

(** [handleDictionarySearch] from its [await] on. *)
Definition handleDictionarySearch_continue (term : string) (lookup : Lookup) (env : Env)
    (screen : Screen) : Screen :=
  let d := dictionary screen in
  match lookup with
  | Found data =>
    let w := setStorage (StorageService.saveDictionaryHistory (uuid env) (now env) term)
                        (world screen) in
    let w := setUi (setHistoryUpdateTrigger S) w in
    {| world := w;
       dictionary := {| isDictionaryOpen := isDictionaryOpen d;
                        dictionaryTerm := dictionaryTerm d;
                        dictionaryData := Some data; dictionaryLoading := false;
                        dictionaryError := dictionaryError d |} |}
  | _ =>
    {| world := world screen;
       dictionary := {| isDictionaryOpen := isDictionaryOpen d;
                        dictionaryTerm := dictionaryTerm d;
                        dictionaryData := dictionaryData d; dictionaryLoading := false;
                        dictionaryError := Some "Could not find definition." |} |}
  end.

(** The two refs of the swipe handlers. *)
Record TouchRefs := {
  touchStartX : option float;
  touchStartY : option float
}.

Definition onTouchStart (clientX clientY : float) (refs : TouchRefs) : TouchRefs :=
  {| touchStartX := Some clientX; touchStartY := Some clientY |}.

Definition minSwipeDistance : float := 50%float.

(** [onTouchEnd]: the refs and the view it leaves. *)
Definition onTouchEnd (clientX clientY : float) (refs : TouchRefs) (currentView : ViewMode)
    : TouchRefs * ViewMode :=
  match touchStartX refs, touchStartY refs with
  | Some startX, Some startY =>
    let diffX := PrimFloat.sub startX clientX in
    let diffY := PrimFloat.sub startY clientY in
    let cleared := {| touchStartX := None; touchStartY := None |} in
    if PrimFloat.ltb (PrimFloat.abs diffY) (PrimFloat.abs diffX) then
      if PrimFloat.ltb minSwipeDistance (PrimFloat.abs diffX) then
        if PrimFloat.ltb 0%float diffX then
          (cleared, match currentView with checker => menu | other => other end)
        else
          (cleared, match currentView with
                    | settings | profile => menu
                    | menu => checker
                    | checker => checker
                    end)
      else (cleared, currentView)
    else (cleared, currentView)
  | _, _ => (refs, currentView)
  end.

(** *** Notions used in the statements *)

(** A touch from [(startX, startY)] to [(clientX, clientY)], as the two
    handlers see it. *)
Definition gesture (startX startY clientX clientY : float) (currentView : ViewMode) : ViewMode :=
  snd (onTouchEnd clientX clientY
         (onTouchStart startX startY {| touchStartX := None; touchStartY := None |})
         currentView).

(** The gesture is a swipe to the right: mostly horizontal, longer than the
    minimum, the finger ending right of where it started. *)
Definition isSwipeRight (startX startY clientX clientY : float) : bool :=
  let diffX := PrimFloat.sub startX clientX in
  let diffY := PrimFloat.sub startY clientY in
  PrimFloat.ltb (PrimFloat.abs diffY) (PrimFloat.abs diffX)
  && PrimFloat.ltb minSwipeDistance (PrimFloat.abs diffX)
  && negb (PrimFloat.ltb 0%float diffX).

Definition isSwipeLeft (startX startY clientX clientY : float) : bool :=
  let diffX := PrimFloat.sub startX clientX in
  let diffY := PrimFloat.sub startY clientY in
  PrimFloat.ltb (PrimFloat.abs diffY) (PrimFloat.abs diffX)
  && PrimFloat.ltb minSwipeDistance (PrimFloat.abs diffX)
  && PrimFloat.ltb 0%float diffX.

(** *** Sample screen *)

Definition closedDictionary : DictionaryUi :=
  {| isDictionaryOpen := false; dictionaryTerm := ""; dictionaryData := None;
     dictionaryLoading := false; dictionaryError := None |}.

Definition typedScreen : Screen := {| world := typedWorld; dictionary := closedDictionary |}.

End AppMore.

(** * Properties of the embedding *)

(** ** The helpers *)

Module JsFacts.
Import Js.

(** *** The stable sort *)

Section SortFacts.
Context {A : Type}.
Variable compare : A -> A -> Z.

Lemma insertSorted_perm (x : A) (l : list A) :
  Permutation (insertSorted compare x l) (x :: l).
Proof.
  induction l as [|y l IH]; simpl; [reflexivity|].
  destruct (compare x y <=? 0); [reflexivity|].
  rewrite IH. apply perm_swap.
Qed.

Lemma sort_perm (l : list A) : Permutation (sort compare l) l.
Proof.
  induction l as [|x l IH]; simpl; [reflexivity|].
  rewrite insertSorted_perm. now constructor.
Qed.

(** A list that is in order already is left as it is: the sort is stable. *)
Lemma sort_of_sorted (l : list A) : Sorted (inOrder compare) l -> sort compare l = l.
Proof.
  induction 1 as [|x l Hsorted IH Hhd]; [reflexivity|].
  simpl. rewrite IH.
  destruct Hhd as [|y l Hxy]; [reflexivity|].
  simpl. unfold inOrder in Hxy.
  destruct (Z.leb_spec (compare x y) 0); [reflexivity|lia].
Qed.

Hypothesis compare_total : forall x y, 0 < compare x y -> compare y x <= 0.

Lemma insertSorted_sorted (x : A) (l : list A) :
  Sorted (inOrder compare) l -> Sorted (inOrder compare) (insertSorted compare x l).
Proof.
  induction 1 as [|y l Hsorted IH Hhd]; simpl.
  - repeat constructor.
  - destruct (Z.leb_spec (compare x y) 0) as [Hle|Hgt].
    + constructor; [now constructor|now constructor].
    + constructor; [exact IH|].
      destruct Hhd as [|z l Hyz]; simpl.
      * constructor. now apply compare_total.
      * destruct (compare x z <=? 0); constructor;
          [now apply compare_total|exact Hyz].
Qed.

Lemma sort_sorted (l : list A) : Sorted (inOrder compare) (sort compare l).
Proof.
  induction l as [|x l IH]; simpl; [constructor|].
  now apply insertSorted_sorted.
Qed.

End SortFacts.

(** *** Filters *)

Lemma filter_none {A : Type} (f : A -> bool) (l : list A) :
  (forall x, In x l -> f x = false) -> List.filter f l = [].
Proof.
  induction l as [|x l IH]; intros H; simpl; [reflexivity|].
  rewrite (H x) by now left. apply IH. intros y Hy. apply H. now right.
Qed.

Lemma length_filter_map {A B : Type} (f : B -> bool) (g : A -> bool) (h : A -> B)
    (l : list A) :
  (forall x, In x l -> f (h x) = g x) ->
  length (List.filter f (List.map h l)) = length (List.filter g l).
Proof.
  induction l as [|x l IH]; intros Hsame; [reflexivity|].
  cbn [List.map List.filter]. rewrite (Hsame x) by now left.
  destruct (g x); cbn [length]; rewrite IH; auto; intros y Hy; apply Hsame; now right.
Qed.

End JsFacts.

(** ** Retry policy *)

Module RetryPolicy.
Import Js GeminiService.

(** *** Properties of the retry loop *)

Lemma retryable_inv (error : Error) :
  retryable error = true ->
  isMissingKey (errorMsg error) = false
  /\ isPermissionDenied (errorMsg error) = false
  /\ negb (isRateLimit (errorMsg error)) && negb (isServerOverload (errorMsg error)) = false.
Proof.
  unfold retryable, classify.
  destruct (isMissingKey _); [discriminate|].
  destruct (isPermissionDenied _); [discriminate|].
  destruct (isRateLimit _); [auto|].
  destruct (isServerOverload _); [auto|discriminate].
Qed.

Lemma calls_backoffTrace d attempt k : calls (backoffTrace d attempt k) = S k.
Proof.
  revert attempt. induction k as [|k IH]; intros attempt; [reflexivity|].
  change (calls (backoffTrace d attempt (S k)))
    with (S (calls (backoffTrace d (S attempt) k))).
  now rewrite IH.
Qed.

Lemma delays_backoffTrace d attempt k :
  delays (backoffTrace d attempt k)
  = List.map (fun i => d * 2 ^ Z.of_nat i) (List.seq attempt k).
Proof.
  revert attempt. induction k as [|k IH]; intros attempt; [reflexivity|].
  change (delays (backoffTrace d attempt (S k)))
    with (d * 2 ^ Z.of_nat attempt :: delays (backoffTrace d (S attempt) k)).
  now rewrite IH.
Qed.

Section RetryFacts.
Context {T : Type}.
Variable fn : nat -> Settled T.
Variable retries : nat.
Variable initialDelay : Z.

Lemma failsRetryably_tail attempt k :
  failsRetryably fn attempt (S k) -> failsRetryably fn (S attempt) k.
Proof.
  intros H j Hj. destruct (H (S j)) as (e & He & Hr); [lia|].
  exists e. split; [|exact Hr]. now replace (S attempt + j)%nat with (attempt + S j)%nat by lia.
Qed.

(** The loop never runs out of fuel when it is given [retries] iterations. *)
Lemma retryLoop_total fuel attempt trace :
  (retries <= attempt + fuel)%nat ->
  is_Some (retryLoop fn retries initialDelay fuel attempt trace).
Proof.
  revert attempt trace.
  induction fuel as [|fuel IH]; intros attempt trace Hfuel; simpl.
  - destruct (Nat.ltb_spec attempt retries); simpl; [lia|eauto].
  - destruct (Nat.ltb_spec attempt retries); simpl; [|eauto].
    destruct (fn attempt) as [v|e]; [eauto|].
    destruct (isMissingKey _); [eauto|].
    destruct (isPermissionDenied _); [eauto|].
    destruct (negb _ && negb _); [eauto|].
    destruct (Nat.leb_spec retries (S attempt)); [eauto|].
    apply IH. lia.
Qed.

(** [k] retryable failures, then a success: the value is returned after the
    waits of [backoffTrace]. *)
Lemma retryLoop_success k : forall fuel attempt trace value,
  (attempt + k < retries)%nat -> (k < fuel)%nat ->
  failsRetryably fn attempt k ->
  fn (attempt + k)%nat = Resolved value ->
  retryLoop fn retries initialDelay fuel attempt trace
  = Some (Resolved value, trace ++ backoffTrace initialDelay attempt k).
Proof.
  induction k as [|k IH]; intros fuel attempt trace value Hlt Hfuel Hfail Hok;
    (destruct fuel as [|fuel]; [lia|]); simpl.
  - destruct (Nat.ltb_spec attempt retries); [simpl|lia].
    rewrite Nat.add_0_r in Hok. now rewrite Hok.
  - destruct (Nat.ltb_spec attempt retries); [simpl|lia].
    destruct (Hfail 0%nat) as (e & He & Hr); [lia|].
    rewrite Nat.add_0_r in He. rewrite He.
    destruct (retryable_inv e Hr) as (-> & -> & ->).
    destruct (Nat.leb_spec retries (S attempt)); [lia|].
    rewrite Nat.sub_0_r.
    rewrite (IH fuel (S attempt) _ value); try lia.
    + now rewrite <- !app_assoc.
    + now apply failsRetryably_tail.
    + now replace (S attempt + k)%nat with (attempt + S k)%nat by lia.
Qed.

(** [k] retryable failures, then one more on the last permitted attempt: the
    last error is thrown, with no wait after it. *)
Lemma retryLoop_exhausted k : forall fuel attempt trace error,
  (attempt + k + 1 = retries)%nat -> (k < fuel)%nat ->
  failsRetryably fn attempt k ->
  fn (attempt + k)%nat = Rejected error -> retryable error = true ->
  retryLoop fn retries initialDelay fuel attempt trace
  = Some (Rejected error, trace ++ backoffTrace initialDelay attempt k).
Proof.
  induction k as [|k IH]; intros fuel attempt trace error Hlt Hfuel Hfail Hlast Hr;
    (destruct fuel as [|fuel]; [lia|]); simpl.
  - destruct (Nat.ltb_spec attempt retries); [simpl|lia].
    rewrite Nat.add_0_r in Hlast. rewrite Hlast.
    destruct (retryable_inv error Hr) as (-> & -> & ->).
    destruct (Nat.leb_spec retries (S attempt)); [reflexivity|lia].
  - destruct (Nat.ltb_spec attempt retries); [simpl|lia].
    destruct (Hfail 0%nat) as (e & He & Hre); [lia|].
    rewrite Nat.add_0_r in He. rewrite He.
    destruct (retryable_inv e Hre) as (-> & -> & ->).
    destruct (Nat.leb_spec retries (S attempt)); [lia|].
    rewrite Nat.sub_0_r.
    rewrite (IH fuel (S attempt) _ error); try lia.
    + now rewrite <- !app_assoc.
    + now apply failsRetryably_tail.
    + now replace (S attempt + k)%nat with (attempt + S k)%nat by lia.
    + exact Hr.
Qed.

End RetryFacts.

(** X1: for any [retries >= 1] and any [initialDelay], after [k < retries]
    retryable failures followed by a success the wrapper returns the value
    after [k + 1] calls, having waited [initialDelay * 2 ^ (attempt - 1)]
    after failure number [attempt]. *)
Theorem retryWithBackoff_succeeds_after {T} (fn : nat -> Settled T)
    (retries : nat) (initialDelay : Z) (k : nat) (value : T) :
  (k < retries)%nat ->
  failsRetryably fn 0 k ->
  fn k = Resolved value ->
  exists trace,
    retryWithBackoff fn retries initialDelay = Some (Resolved value, trace)
    /\ calls trace = S k
    /\ delays trace
       = List.map (fun attempt => initialDelay * 2 ^ Z.of_nat (attempt - 1)) (List.seq 1 k).
Proof.
  intros Hk Hfail Hok. exists (backoffTrace initialDelay 0 k).
  unfold retryWithBackoff.
  rewrite (retryLoop_success fn retries initialDelay k retries 0%nat [] value);
    try assumption; try lia.
  split; [reflexivity|]. split; [apply calls_backoffTrace|].
  rewrite delays_backoffTrace, <- List.seq_shift, List.map_map.
  apply List.map_ext. intros a. now rewrite Nat.sub_1_r.
Qed.

Lemma retryWithBackoff_succeeds_after_witness :
  exists trace,
    retryWithBackoff failsTwiceThenAnswers 5 1000 = Some (Resolved 7%nat, trace)
    /\ calls trace = 3%nat
    /\ delays trace
       = List.map (fun attempt => 1000 * 2 ^ Z.of_nat (attempt - 1)) (List.seq 1 2).
Proof.
  apply (retryWithBackoff_succeeds_after failsTwiceThenAnswers 5 1000 2 7%nat).
  - lia.
  - intros j Hj. exists rateLimitedError.
    destruct j as [|[|j]]; [split; reflexivity|split; reflexivity|lia].
  - reflexivity.
Defined.

(** C2: with the defaults (3 attempts, 2000 ms), an operation whose failures
    are all rate-limit or overload errors is called at most 3 times; the
    wrapper waits 2000 ms after the first failure and 4000 ms after the
    second, returns the value of the first call that succeeds, and throws the
    third error when all three calls fail. *)
Theorem retryWithBackoff_default_policy {T} (fn : nat -> Settled T) :
  (forall k error, (k < 3)%nat -> fn k = Rejected error -> retryable error = true) ->
  exists result trace,
    retryWithBackoff fn defaultRetries defaultInitialDelay = Some (result, trace)
    /\ (calls trace <= 3)%nat
    /\ match fn 0%nat, fn 1%nat, fn 2%nat with
       | Resolved value, _, _ =>
         result = Resolved value /\ calls trace = 1%nat /\ delays trace = []
       | Rejected _, Resolved value, _ =>
         result = Resolved value /\ calls trace = 2%nat /\ delays trace = [2000]
       | Rejected _, Rejected _, Resolved value =>
         result = Resolved value /\ calls trace = 3%nat /\ delays trace = [2000; 4000]
       | Rejected _, Rejected _, Rejected lastError =>
         result = Rejected lastError /\ calls trace = 3%nat /\ delays trace = [2000; 4000]
       end.
Proof.
  intros Hcls.
  assert (Hfail : forall k, (k <= 3)%nat ->
            (forall j, (j < k)%nat -> exists e, fn j = Rejected e) ->
            failsRetryably fn 0 k).
  { intros k Hk Hrej j Hj. destruct (Hrej j Hj) as [e He].
    exists e. split; [exact He|]. apply (Hcls j); [lia|exact He]. }
  unfold retryWithBackoff, defaultRetries, defaultInitialDelay.
  destruct (fn 0%nat) as [v0|e0] eqn:E0.
  { exists (Resolved v0), (backoffTrace 2000 0 0). split; [|repeat split; solve [reflexivity | vm_compute; lia]].
    now apply (retryLoop_success fn 3 2000 0); [lia|lia|intros j Hj; lia|]. }
  destruct (fn 1%nat) as [v1|e1] eqn:E1.
  { exists (Resolved v1), (backoffTrace 2000 0 1). split; [|repeat split; solve [reflexivity | vm_compute; lia]].
    apply (retryLoop_success fn 3 2000 1); [lia|lia| |exact E1].
    apply Hfail; [lia|]. intros j Hj. assert (j = 0)%nat as -> by lia. eauto. }
  assert (H2 : failsRetryably fn 0 2).
  { apply Hfail; [lia|]. intros j Hj.
    destruct j as [|[|j]]; [eauto|eauto|lia]. }
  destruct (fn 2%nat) as [v2|e2] eqn:E2.
  { exists (Resolved v2), (backoffTrace 2000 0 2). split; [|repeat split; solve [reflexivity | vm_compute; lia]].
    now apply (retryLoop_success fn 3 2000 2); [lia|lia|exact H2|]. }
  exists (Rejected e2), (backoffTrace 2000 0 2). split; [|repeat split; solve [reflexivity | vm_compute; lia]].
  apply (retryLoop_exhausted fn 3 2000 2); [lia|lia|exact H2|exact E2|].
  now apply (Hcls 2%nat); [lia|].
Qed.

Lemma retryWithBackoff_default_policy_witness :
  exists result trace,
    retryWithBackoff failsTwiceThenAnswers defaultRetries defaultInitialDelay
    = Some (result, trace)
    /\ (calls trace <= 3)%nat
    /\ result = Resolved 7%nat /\ calls trace = 3%nat /\ delays trace = [2000; 4000].
Proof.
  apply (retryWithBackoff_default_policy failsTwiceThenAnswers).
  intros k error Hk Hrej.
  destruct k as [|[|k]]; simpl in Hrej.
  - injection Hrej as <-. reflexivity.
  - injection Hrej as <-. reflexivity.
  - destruct k; discriminate Hrej.
Defined.

End RetryPolicy.

(** ** Durable state store *)

Module DurableStore.
Import Js JsFacts StorageService.

(** *** Snippets *)

Lemma String_length_take (n : nat) (s : string) :
  String.length (take n s) = Nat.min n (String.length s).
Proof.
  revert s. induction n as [|n IH]; intros [|c s]; simpl; try reflexivity.
  now rewrite IH.
Qed.

Lemma String_length_append (s1 s2 : string) :
  String.length (s1 +:+ s2) = (String.length s1 + String.length s2)%nat.
Proof. induction s1 as [|c s1 IH]; simpl; [reflexivity|]. now rewrite IH. Qed.

Lemma snippetOf_short (content : string) :
  (String.length content <= 60)%nat -> snippetOf content = content.
Proof.
  intros H. unfold snippetOf.
  destruct (Nat.ltb_spec 60 (String.length content)); [lia|reflexivity].
Qed.

Lemma snippetOf_long (content : string) :
  (60 < String.length content)%nat ->
  snippetOf content = take 60 content +:+ "..."
  /\ String.length (snippetOf content) = 63%nat.
Proof.
  intros H. unfold snippetOf.
  destruct (Nat.ltb_spec 60 (String.length content)); [|lia].
  split; [reflexivity|].
  rewrite String_length_append, String_length_take.
  change (String.length "...") with 3%nat. lia.
Qed.

Lemma snippetOf_bound (content : string) : (String.length (snippetOf content) <= 63)%nat.
Proof.
  destruct (Nat.le_gt_cases (String.length content) 60) as [H|H].
  - rewrite snippetOf_short by exact H. lia.
  - destruct (snippetOf_long content H) as [_ ->]. lia.
Qed.

Lemma getHistory_prependEntry (entry : HistoryEntry) (ls : LocalStorage) :
  getHistory (prependEntry entry ls) = entry :: getHistory ls.
Proof. unfold prependEntry, getHistory at 1. now rewrite lookup_insert_eq. Qed.

(** C9, as stated, fails: a grammar entry made from a corrected sentence of
    61 characters has a snippet of 63 characters, and a dictionary entry
    keeps a 61-character term whole. *)
Lemma textSnippet_longer_than_60 :
  ~ (String.length (textSnippet (grammarEntry "id-1" 1000 "" sixtyOneAnalysis)) <= 60)%nat
  /\ ~ (String.length (textSnippet (dictionaryEntry "id-2" 1000 sixtyOne)) <= 60)%nat.
Proof. split; vm_compute; lia. Qed.

(** C9, amended: the entry that [saveHistory] or [saveRewriteHistory] puts in
    front of the history has as snippet the content itself when that has at
    most 60 characters, and otherwise its first 60 characters followed by
    three dots, 63 characters in all; [saveDictionaryHistory] stores the term
    as the snippet, whatever its length. *)
Theorem textSnippet_of_saved_entries (uuid : string) (now : Z) (ls : LocalStorage) :
  (forall text analysis,
      let content := grammarContent text analysis in
      exists entry,
        getHistory (saveHistory uuid now text analysis ls) = entry :: getHistory ls
        /\ type entry = Some grammar
        /\ ((String.length content <= 60)%nat -> textSnippet entry = content)
        /\ ((60 < String.length content)%nat ->
            textSnippet entry = take 60 content +:+ "..."
            /\ String.length (textSnippet entry) = 63%nat)
        /\ (String.length (textSnippet entry) <= 63)%nat)
  /\ (forall text analysis,
      let content := rewrittenText analysis in
      exists entry,
        getHistory (saveRewriteHistory uuid now text analysis ls) = entry :: getHistory ls
        /\ type entry = Some rewrite
        /\ ((String.length content <= 60)%nat -> textSnippet entry = content)
        /\ ((60 < String.length content)%nat ->
            textSnippet entry = take 60 content +:+ "..."
            /\ String.length (textSnippet entry) = 63%nat)
        /\ (String.length (textSnippet entry) <= 63)%nat)
  /\ (forall term,
      exists entry,
        getHistory (saveDictionaryHistory uuid now term ls) = entry :: getHistory ls
        /\ type entry = Some dictionary
        /\ textSnippet entry = term).
Proof.
  split; [|split].
  - intros text analysis content.
    exists (grammarEntry uuid now text analysis).
    split; [apply getHistory_prependEntry|]. split; [reflexivity|].
    split; [apply snippetOf_short|]. split; [apply snippetOf_long|apply snippetOf_bound].
  - intros text analysis content.
    exists (rewriteEntry uuid now analysis).
    split; [apply getHistory_prependEntry|]. split; [reflexivity|].
    split; [apply snippetOf_short|]. split; [apply snippetOf_long|apply snippetOf_bound].
  - intros term. exists (dictionaryEntry uuid now term).
    split; [apply getHistory_prependEntry|]. split; reflexivity.
Qed.

(** *** The versioned app snapshot *)

Lemma isCurrentVersion_false (item : option Item) :
  item <> Some (Plain CURRENT_VERSION) -> isCurrentVersion item = false.
Proof.
  destruct item as [[text| |]|]; simpl; try reflexivity.
  intros H. destruct (String.eqb_spec text CURRENT_VERSION) as [->|]; [congruence|reflexivity].
Qed.

(** C5: when the stored version tag is not the expected one, [getAppState]
    returns null, removes the app-state record and stores the expected tag;
    every other record, the history and the API key among them, is as it was. *)
Theorem getAppState_version_mismatch (ls : LocalStorage) :
  ls !! VERSION_KEY <> Some (Plain CURRENT_VERSION) ->
  fst (getAppState ls) = None
  /\ snd (getAppState ls) !! STATE_KEY = None
  /\ snd (getAppState ls) !! VERSION_KEY = Some (Plain CURRENT_VERSION)
  /\ (forall key, key <> STATE_KEY -> key <> VERSION_KEY ->
        snd (getAppState ls) !! key = ls !! key)
  /\ snd (getAppState ls) !! STORAGE_KEY = ls !! STORAGE_KEY
  /\ snd (getAppState ls) !! API_KEY_STORAGE_KEY = ls !! API_KEY_STORAGE_KEY
  /\ getHistory (snd (getAppState ls)) = getHistory ls
  /\ getStoredApiKey (snd (getAppState ls)) = getStoredApiKey ls.
Proof.
  intros Hmismatch. unfold getAppState.
  rewrite (isCurrentVersion_false _ Hmismatch). simpl.
  assert (Hframe : forall key, key <> STATE_KEY -> key <> VERSION_KEY ->
            (<[VERSION_KEY := Plain CURRENT_VERSION]> (delete STATE_KEY ls) : LocalStorage) !! key
            = ls !! key).
  { intros key Hs Hv. rewrite lookup_insert_ne by congruence.
    now rewrite lookup_delete_ne by congruence. }
  split; [reflexivity|]. split.
  { rewrite lookup_insert_ne by discriminate. apply lookup_delete_eq. }
  split; [apply lookup_insert_eq|]. split; [exact Hframe|].
  assert (Hh := Hframe STORAGE_KEY ltac:(discriminate) ltac:(discriminate)).
  assert (Hk := Hframe API_KEY_STORAGE_KEY ltac:(discriminate) ltac:(discriminate)).
  unfold getHistory, getStoredApiKey. rewrite Hh, Hk. repeat split; reflexivity.
Qed.

Lemma getAppState_version_mismatch_witness :
  fst (getAppState storageOfOlderVersion) = None
  /\ snd (getAppState storageOfOlderVersion) !! STATE_KEY = None
  /\ snd (getAppState storageOfOlderVersion) !! VERSION_KEY = Some (Plain CURRENT_VERSION)
  /\ (forall key, key <> STATE_KEY -> key <> VERSION_KEY ->
        snd (getAppState storageOfOlderVersion) !! key = storageOfOlderVersion !! key)
  /\ snd (getAppState storageOfOlderVersion) !! STORAGE_KEY = storageOfOlderVersion !! STORAGE_KEY
  /\ snd (getAppState storageOfOlderVersion) !! API_KEY_STORAGE_KEY
     = storageOfOlderVersion !! API_KEY_STORAGE_KEY
  /\ getHistory (snd (getAppState storageOfOlderVersion)) = getHistory storageOfOlderVersion
  /\ getStoredApiKey (snd (getAppState storageOfOlderVersion))
     = getStoredApiKey storageOfOlderVersion.
Proof.
  apply (getAppState_version_mismatch storageOfOlderVersion).
  vm_compute. discriminate.
Defined.

(** *** Malformed imports *)

(** C6: when the file does not parse, or parses to a value that is neither
    an array nor an object with a [history] array, [importHistoryJSON]
    resolves with [success: false] and the storage is left exactly as it was. *)
Theorem importHistoryJSON_rejects_malformed (content : option Json) (ls : LocalStorage) :
  (forall parsed, content = Some parsed -> hasImportShape parsed = false) ->
  fst (importHistoryJSON content ls) = importFailed
  /\ success (fst (importHistoryJSON content ls)) = false
  /\ snd (importHistoryJSON content ls) = ls.
Proof.
  intros Hshape.
  assert (H : importHistoryJSON content ls = (importFailed, ls)).
  { destruct content as [parsed|]; [|reflexivity].
    specialize (Hshape parsed eq_refl).
    destruct parsed as [| b | n | text | items | fields]; try reflexivity;
      [discriminate Hshape|].
    unfold importHistoryJSON; simpl in *.
    destruct (lookupField "history" fields) as [[| b | n | text | items | inner]|];
      simpl; try reflexivity.
    - now destruct b.
    - now destruct (n =? 0).
    - now destruct (String.eqb text "").
    - discriminate Hshape. }
  rewrite H. repeat split.
Qed.

Lemma importHistoryJSON_rejects_malformed_witness :
  fst (importHistoryJSON (Some (JObject [("history", JString "none")])) storageWithHistory)
  = importFailed
  /\ success (fst (importHistoryJSON (Some (JObject [("history", JString "none")]))
                                     storageWithHistory)) = false
  /\ snd (importHistoryJSON (Some (JObject [("history", JString "none")])) storageWithHistory)
     = storageWithHistory.
Proof.
  apply (importHistoryJSON_rejects_malformed
           (Some (JObject [("history", JString "none")])) storageWithHistory).
  intros parsed Hparsed. injection Hparsed as <-. reflexivity.
Defined.

(** *** Statistics *)

Lemma fold_left_errorCount (l : list HistoryEntry) (start : nat) :
  List.fold_left (fun sum item => (sum + errorCount item)%nat) l start
  = (start + list_sum (List.map errorCount l))%nat.
Proof.
  revert start. induction l as [|x l IH]; intros start; simpl; [lia|].
  rewrite IH. lia.
Qed.

(** X2: [getStats] counts the entries that are grammar checks (those of type
    grammar and those without a type), sums their error counts and counts the
    perfect ones; with no such entry every field is 0; with three of them, one
    perfect, the accuracy rate is 33. *)
Theorem getStats_counts (ls : LocalStorage) :
  let grammarHistory := List.filter isGrammar (getHistory ls) in
  totalChecks (getStats ls) = length grammarHistory
  /\ totalErrors (getStats ls) = list_sum (List.map errorCount grammarHistory)
  /\ perfectRuns (getStats ls) = length (List.filter isPerfect grammarHistory)
  /\ (length grammarHistory = 0%nat ->
      getStats ls = {| totalChecks := 0; totalErrors := 0; accuracyRate := 0; perfectRuns := 0 |})
  /\ (length grammarHistory = 3%nat ->
      length (List.filter isPerfect grammarHistory) = 1%nat ->
      accuracyRate (getStats ls) = 33).
Proof.
  intros grammarHistory. unfold getStats. fold grammarHistory.
  destruct (Nat.eqb_spec (length grammarHistory) 0) as [Hzero|Hpos].
  - destruct grammarHistory; [|discriminate Hzero].
    repeat split; auto; discriminate.
  - simpl. rewrite fold_left_errorCount. repeat split; auto.
    + intros H. contradiction.
    + intros -> ->. vm_compute. reflexivity.
Qed.

(** C7 at 23 perfect runs out of 40 checks: 100 * 23 / 40 is 57.5, which
    rounds to 58, but the binary64 product (23 / 40) * 100 lies below 57.5 and
    [getStats] reports 57. *)
Theorem getStats_tie_rounds_down :
  totalChecks (getStats fortyChecks) = 40%nat
  /\ perfectRuns (getStats fortyChecks) = 23%nat
  /\ 2 * (100 * 23) = (2 * 57 + 1) * 40
  /\ accuracyRate (getStats fortyChecks) = 57.
Proof. vm_compute. repeat split. Qed.

(** *** Import and export *)

Lemma Sorted_newestFirst (l : list HistoryEntry) :
  Sorted (inOrder newestFirst) l <-> Sorted newestFirstOrder l.
Proof.
  assert (Heq : forall a b, inOrder newestFirst a b <-> newestFirstOrder a b).
  { intros a b. unfold inOrder, newestFirst, newestFirstOrder. lia. }
  split; induction 1 as [|x l Hs IH Hhd]; constructor; try exact IH;
    destruct Hhd; constructor; now apply Heq.
Qed.

Lemma in_currentIds (x : HistoryEntry) (current : list HistoryEntry) :
  id x ∈ (list_to_set (List.map id current) : gset string)
  <-> exists y, In y current /\ id y = id x.
Proof.
  rewrite elem_of_list_to_set, list_elem_of_In, in_map_iff.
  split; intros (y & H1 & H2); exists y; auto.
Qed.

Lemma in_accepted (x : HistoryEntry) (historyToMerge current : list HistoryEntry) :
  In x (accepted historyToMerge current)
  <-> In x historyToMerge /\ id x <> "" /\ (forall y, In y current -> id y <> id x).
Proof.
  unfold accepted. rewrite filter_In, andb_true_iff, !negb_true_iff.
  rewrite bool_decide_eq_false, in_currentIds.
  destruct (String.eqb_spec (id x) ""); split; intros (Hin & H1 & H2);
    try congruence; (split; [exact Hin|]); split; try reflexivity; try assumption.
  - intros y Hy Heq. apply H2. eauto.
  - intros (y & Hy & Heq). now apply (H2 y).
Qed.

Lemma mergeHistory_perm (historyToMerge current : list HistoryEntry) :
  Permutation (mergeHistory historyToMerge current)
              (accepted historyToMerge current ++ current).
Proof. apply sort_perm. Qed.

Lemma mergeHistory_sorted (historyToMerge current : list HistoryEntry) :
  Sorted newestFirstOrder (mergeHistory historyToMerge current).
Proof.
  apply Sorted_newestFirst, sort_sorted.
  intros x y. unfold newestFirst. lia.
Qed.

(** Nothing is accepted from a list whose entries with an id are all held. *)
Lemma accepted_none (historyToMerge current : list HistoryEntry) :
  (forall x, In x historyToMerge -> id x <> "" -> exists y, In y current /\ id y = id x) ->
  accepted historyToMerge current = [].
Proof.
  intros H. apply filter_none. intros x Hx.
  destruct (String.eqb_spec (id x) "") as [|Hid]; [reflexivity|]. simpl.
  apply negb_false_iff, bool_decide_eq_true, in_currentIds. now apply H.
Qed.

(** Whether some entry of [current] has the id of [x] can be decided. *)
Lemma held_or_not (x : HistoryEntry) (current : list HistoryEntry) :
  (exists y, In y current /\ id y = id x) \/ (forall y, In y current -> id y <> id x).
Proof.
  induction current as [|z current [(y & Hy & Heq)|IH]].
  - right. intros y [].
  - left. exists y. split; [now right|exact Heq].
  - destruct (String.eqb_spec (id z) (id x)) as [Heq|Hne].
    + left. exists z. split; [now left|exact Heq].
    + right. intros y [<-|Hy]; [exact Hne|now apply IH].
Qed.

Lemma mergeHistory_again (historyToMerge current : list HistoryEntry) :
  mergeHistory historyToMerge (mergeHistory historyToMerge current)
  = mergeHistory historyToMerge current.
Proof.
  set (merged := mergeHistory historyToMerge current).
  unfold mergeHistory at 1. fold (accepted historyToMerge merged).
  rewrite accepted_none.
  - simpl. apply sort_of_sorted, Sorted_newestFirst, mergeHistory_sorted.
  - intros x Hx Hid.
    destruct (held_or_not x current) as [(y & Hy & Heq)|Hnone].
    + exists y. split; [|exact Heq].
      apply (Permutation_in _ (Permutation_sym (mergeHistory_perm _ _))).
      apply in_or_app. now right.
    + exists x. split; [|reflexivity].
      apply (Permutation_in _ (Permutation_sym (mergeHistory_perm _ _))).
      apply in_or_app. left. apply in_accepted. auto.
Qed.

Lemma importHistoryJSON_accepts (parsed : Json) (items : list HistoryEntry)
    (ls : LocalStorage) :
  fileEntries parsed = Some items ->
  importHistoryJSON (Some parsed) ls
  = (importSucceeded parsed,
     <[STORAGE_KEY := HistoryJson (mergeHistory items (getHistory ls))]> ls).
Proof.
  destruct parsed as [| b | n | text | arr | fields]; simpl; try discriminate.
  - now intros [= ->].
  - unfold importHistoryJSON. simpl.
    destruct (lookupField "history" fields) as [[| | | | arr |]|]; try discriminate.
    now intros [= ->].
Qed.

Lemma getHistory_insert (entries : list HistoryEntry) (ls : LocalStorage) :
  getHistory (<[STORAGE_KEY := HistoryJson entries]> ls) = entries.
Proof. unfold getHistory. now rewrite lookup_insert_eq. Qed.

Lemma exportedHistory_getHistory (ls : LocalStorage) (data : ExportData) :
  exportHistoryJSON ls = Some data -> exportedHistory data = getHistory ls.
Proof.
  unfold exportHistoryJSON, getHistory.
  destruct (ls !! STORAGE_KEY) as [[text|entries|state]|].
  - destruct (String.eqb text ""); [|discriminate]. now intros [= <-].
  - now intros [= <-].
  - discriminate.
  - now intros [= <-].
Qed.

Lemma mergeHistory_self (current : list HistoryEntry) :
  mergeHistory current current = sort newestFirst current.
Proof.
  unfold mergeHistory. fold (accepted current current).
  rewrite accepted_none; [reflexivity|]. intros x Hx _. now exists x.
Qed.

(** C3, as stated, fails: importing the export of [storageAfterImportAndCheck]
    into itself changes the order of its history. *)
Lemma import_of_own_export_reorders :
  exists data,
    exportHistoryJSON storageAfterImportAndCheck = Some data
    /\ getHistory (snd (importHistoryJSON (Some (backupFile data)) storageAfterImportAndCheck))
       <> getHistory storageAfterImportAndCheck.
Proof.
  eexists. split; [vm_compute; reflexivity|].
  vm_compute. discriminate.
Qed.

(** C3, amended: an import of a well-shaped file succeeds; an incoming entry
    is taken exactly when it has an id that no entry of the current history
    has; the new history is the taken entries together with the current
    ones, sorted by timestamp, newest first; importing the same file again
    changes nothing.  Importing the store's own export keeps the same
    entries and sorts them newest first, so the order is unchanged whenever
    the history was in that order already. *)
Theorem import_merge_idempotent (parsed : Json) (items : list HistoryEntry)
    (ls : LocalStorage) (data : ExportData) :
  fileEntries parsed = Some items ->
  exportHistoryJSON ls = Some data ->
  let imported := importHistoryJSON (Some parsed) ls in
  let restored := importHistoryJSON (Some (backupFile data)) ls in
  success (fst imported) = true
  /\ (forall x, In x (accepted items (getHistory ls)) <->
        In x items /\ id x <> "" /\ (forall y, In y (getHistory ls) -> id y <> id x))
  /\ Permutation (getHistory (snd imported)) (accepted items (getHistory ls) ++ getHistory ls)
  /\ Sorted newestFirstOrder (getHistory (snd imported))
  /\ importHistoryJSON (Some parsed) (snd imported) = imported
  /\ success (fst restored) = true
  /\ Permutation (getHistory (snd restored)) (getHistory ls)
  /\ Sorted newestFirstOrder (getHistory (snd restored))
  /\ (Sorted newestFirstOrder (getHistory ls) ->
      getHistory (snd restored) = getHistory ls).
Proof.
  intros Hfile Hexport imported restored.
  assert (Hbackup : fileEntries (backupFile data) = Some (getHistory ls)).
  { simpl. now rewrite (exportedHistory_getHistory ls data Hexport). }
  subst imported restored.
  rewrite (importHistoryJSON_accepts parsed items ls Hfile).
  rewrite (importHistoryJSON_accepts _ _ ls Hbackup).
  cbn [fst snd]. rewrite !getHistory_insert, mergeHistory_self.
  split; [now destruct parsed|].
  split; [intros x; apply in_accepted|].
  split; [apply mergeHistory_perm|].
  split; [apply mergeHistory_sorted|].
  split.
  { rewrite (importHistoryJSON_accepts parsed items _ Hfile).
    rewrite getHistory_insert, mergeHistory_again.
    f_equal. apply insert_insert_eq. }
  split; [reflexivity|].
  split; [apply sort_perm|].
  split.
  { apply Sorted_newestFirst, sort_sorted. intros x y. unfold newestFirst. lia. }
  intros Hsorted. now apply sort_of_sorted, Sorted_newestFirst.
Qed.

Lemma import_merge_idempotent_witness :
  success (fst (importHistoryJSON (Some backupWithBoth) storageWithHistory)) = true
  /\ importHistoryJSON (Some backupWithBoth)
       (snd (importHistoryJSON (Some backupWithBoth) storageWithHistory))
     = importHistoryJSON (Some backupWithBoth) storageWithHistory
  /\ getHistory (snd (importHistoryJSON (Some (backupFile exportOfStorageWithHistory))
                                        storageWithHistory))
     = getHistory storageWithHistory.
Proof.
  destruct (import_merge_idempotent backupWithBoth [laterEntry; olderEntry]
              storageWithHistory exportOfStorageWithHistory eq_refl eq_refl)
    as (Hok & _ & _ & _ & Hagain & _ & _ & _ & Hsame).
  split; [exact Hok|]. split; [exact Hagain|].
  apply Hsame. repeat constructor.
Defined.

End DurableStore.

(** ** Activity aggregator *)

Module ActivityAggregator.
Import Js JsFacts StorageService Profile.

(** *** Consecutive days *)

Lemma length_daysFrom (start : Z) (n : nat) : length (daysFrom start n) = n.
Proof. revert start. induction n as [|n IH]; intros start; simpl; [reflexivity|]. now rewrite IH. Qed.

Lemma in_daysFrom (start : Z) (n : nat) (day : Z) :
  In day (daysFrom start n) <-> start <= day < start + Z.of_nat n.
Proof.
  revert start. induction n as [|n IH]; intros start; simpl; [lia|].
  rewrite IH. lia.
Qed.

Lemma daysFrom_app (start : Z) (n m : nat) :
  daysFrom start (n + m) = daysFrom start n ++ daysFrom (start + Z.of_nat n) m.
Proof.
  revert start. induction n as [|n IH]; intros start.
  - simpl. now rewrite Z.add_0_r.
  - cbn [Nat.add daysFrom app]. rewrite IH. do 3 f_equal. lia.
Qed.

(** A day of the range is met exactly once. *)
Lemma daysFrom_once (start : Z) (n : nat) (day : Z) :
  start <= day < start + Z.of_nat n ->
  length (List.filter (fun d => d =? day) (daysFrom start n)) = 1%nat.
Proof.
  revert start. induction n as [|n IH]; intros start Hin; [lia|].
  simpl. destruct (Z.eqb_spec start day) as [->|Hne].
  - simpl. f_equal. rewrite filter_none; [reflexivity|].
    intros d Hd. apply in_daysFrom in Hd. apply Z.eqb_neq. lia.
  - apply IH. lia.
Qed.

(** *** Time values *)

Lemma Day_midnight (day : Z) : Day (day * msPerDay) = day.
Proof. unfold Day, msPerDay. now rewrite Z.div_mul. Qed.

Lemma TimeWithinDay_midnight (day : Z) : TimeWithinDay (day * msPerDay) = 0.
Proof. unfold TimeWithinDay, msPerDay. now rewrite Z.mod_mul. Qed.

Section CalendarFacts.
Variable LocalTZA : Z -> bool -> Z.

Lemma recordActivity_lookup (activityMap : gmap Z nat) (entry : HistoryEntry) (day : Z) :
  default 0%nat (recordActivity LocalTZA activityMap entry !! day)
  = (default 0%nat (activityMap !! day)
     + if (localDay LocalTZA (timestamp entry) =? day)%Z then 1 else 0)%nat.
Proof.
  unfold recordActivity.
  destruct (Z.eqb_spec (localDay LocalTZA (timestamp entry)) day) as [->|Hne].
  - now rewrite lookup_insert_eq.
  - rewrite lookup_insert_ne by exact Hne. lia.
Qed.

Lemma fold_recordActivity_lookup (history : list HistoryEntry) (activityMap : gmap Z nat)
    (day : Z) :
  default 0%nat (List.fold_left (recordActivity LocalTZA) history activityMap !! day)
  = (default 0%nat (activityMap !! day) + entriesOn LocalTZA history day)%nat.
Proof.
  revert activityMap. unfold entriesOn.
  induction history as [|entry history IH]; intros activityMap; simpl; [lia|].
  rewrite IH, recordActivity_lookup.
  destruct (localDay LocalTZA (timestamp entry) =? day); simpl; lia.
Qed.

(** The map counts the entries of each day. *)
Lemma buildActivityMap_lookup (history : list HistoryEntry) (day : Z) :
  default 0%nat (buildActivityMap LocalTZA history !! day) = entriesOn LocalTZA history day.
Proof. unfold buildActivityMap. now rewrite fold_recordActivity_lookup, lookup_empty. Qed.

(** From a local midnight, [setDate] lands on the midnight of the day it
    is asked for. *)
Lemma localDay_startOfDay (day : Z) :
  hasMidnight LocalTZA day -> localDay LocalTZA (startOfDay LocalTZA day) = day.
Proof. unfold hasMidnight, localDay. intros ->. apply Day_midnight. Qed.

Lemma addDays_startOfDay (k day : Z) :
  hasMidnight LocalTZA day ->
  addDays LocalTZA k (startOfDay LocalTZA day) = startOfDay LocalTZA (day + k).
Proof.
  unfold hasMidnight, addDays, startOfDay. intros ->.
  rewrite Day_midnight, TimeWithinDay_midnight. f_equal. lia.
Qed.

(** Midnights come in the order of their days. *)
Lemma startOfDay_ltb (a b : Z) :
  offsetsWithinADay LocalTZA ->
  (startOfDay LocalTZA a <? startOfDay LocalTZA b) = (a <? b).
Proof.
  intros Hvar. unfold startOfDay, UTC.
  pose proof (Hvar (a * msPerDay) (b * msPerDay)) as Hab.
  pose proof (Hvar (b * msPerDay) (a * msPerDay)) as Hba.
  unfold msPerDay in *.
  destruct (Z.ltb_spec a b), (Z.ltb_spec (a * 86400000 - LocalTZA (a * 86400000) false)
                                         (b * 86400000 - LocalTZA (b * 86400000) false));
    try reflexivity; try lia.
  assert (a = b \/ b < a) as [->|Hlt] by lia; lia.
Qed.

Section Loops.
Variable history : list HistoryEntry.
Variable today : Z.
Hypothesis Hvar : offsetsWithinADay LocalTZA.
Hypothesis Htoday : hasMidnight LocalTZA today.

Lemma dayCell_startOfDay (day : Z) :
  hasMidnight LocalTZA day ->
  dayCell LocalTZA (buildActivityMap LocalTZA history) (startOfDay LocalTZA today)
          (startOfDay LocalTZA day)
  = calendarCell LocalTZA history today day.
Proof.
  intros Hday. unfold dayCell, calendarCell.
  now rewrite (localDay_startOfDay day Hday), buildActivityMap_lookup, startOfDay_ltb.
Qed.

Lemma weekLoop_spec (d : nat) : forall loopDay : Z,
  (forall day, loopDay <= day < loopDay + Z.of_nat d -> hasMidnight LocalTZA day) ->
  weekLoop LocalTZA (buildActivityMap LocalTZA history) (startOfDay LocalTZA today) d
           (startOfDay LocalTZA loopDay)
  = (List.map (calendarCell LocalTZA history today) (daysFrom loopDay d),
     startOfDay LocalTZA (loopDay + Z.of_nat d)).
Proof.
  induction d as [|d IH]; intros loopDay Hmid.
  - simpl. now rewrite Z.add_0_r.
  - cbn [weekLoop]. rewrite addDays_startOfDay by (apply Hmid; lia).
    rewrite IH by (intros day Hday; apply Hmid; lia).
    rewrite dayCell_startOfDay by (apply Hmid; lia).
    cbn [fst snd daysFrom List.map]. do 2 f_equal. lia.
Qed.

Lemma weeksLoop_spec (w : nat) : forall loopDay : Z,
  (forall day, loopDay <= day < loopDay + Z.of_nat (7 * w) -> hasMidnight LocalTZA day) ->
  length (weeksLoop LocalTZA (buildActivityMap LocalTZA history) (startOfDay LocalTZA today) w
                    (startOfDay LocalTZA loopDay)) = w
  /\ Forall (fun week => length week = 7%nat)
            (weeksLoop LocalTZA (buildActivityMap LocalTZA history) (startOfDay LocalTZA today)
                       w (startOfDay LocalTZA loopDay))
  /\ concat (weeksLoop LocalTZA (buildActivityMap LocalTZA history)
                       (startOfDay LocalTZA today) w (startOfDay LocalTZA loopDay))
     = List.map (calendarCell LocalTZA history today) (daysFrom loopDay (7 * w)).
Proof.
  induction w as [|w IH]; intros loopDay Hmid.
  - repeat split. constructor.
  - cbn [weeksLoop]. rewrite weekLoop_spec by (intros day Hday; apply Hmid; lia).
    cbn [fst snd].
    destruct (IH (loopDay + Z.of_nat 7)) as (Hlen & Hweeks & Hcells).
    { intros day Hday. apply Hmid. lia. }
    split; [simpl; now rewrite Hlen|]. split.
    + constructor; [|exact Hweeks]. now rewrite length_map, length_daysFrom.
    + cbn [concat]. rewrite Hcells, <- List.map_app.
      replace (7 * S w)%nat with (7 + 7 * w)%nat by lia.
      now rewrite daysFrom_app.
Qed.

End Loops.

Lemma getDay_range (day : Z) : 0 <= getDay day <= 6.
Proof. unfold getDay. pose proof (Z.mod_pos_bound (day + 4) 7). lia. Qed.

Lemma getDay_gridStart (now : Z) : getDay (gridStart LocalTZA now) = 0.
Proof.
  unfold gridStart, getDay.
  set (today := localDay LocalTZA now).
  replace (today - (today + 4) mod 7 - 357 + 4)
    with (((today + 4) - (today + 4) mod 7) + (-51) * 7) by lia.
  rewrite Z.mod_add by lia.
  rewrite Zminus_mod, Zmod_mod, Z.sub_diag. reflexivity.
Qed.

(** When every day of the grid has a local midnight, the loop runs from
    midnight to midnight: the grid is the 364 consecutive days from
    [gridStart], each compared with today as a day. *)
Lemma activityWeeks_cells (history : list HistoryEntry) (now : Z) :
  (forall day, gridStart LocalTZA now <= day < gridStart LocalTZA now + 364 ->
     hasMidnight LocalTZA day) ->
  offsetsWithinADay LocalTZA ->
  length (activityWeeks LocalTZA history now) = 52%nat
  /\ Forall (fun week => length week = 7%nat) (activityWeeks LocalTZA history now)
  /\ concat (activityWeeks LocalTZA history now)
     = List.map (calendarCell LocalTZA history (localDay LocalTZA now))
                (daysFrom (gridStart LocalTZA now) 364).
Proof.
  intros Hmid Hvar.
  set (today := localDay LocalTZA now).
  pose proof (getDay_range today) as Hrange.
  assert (Hstart : gridStart LocalTZA now = today - getDay today - 357) by reflexivity.
  assert (Htoday : hasMidnight LocalTZA today) by (apply Hmid; lia).
  unfold activityWeeks.
  change (setHoursZero LocalTZA now) with (startOfDay LocalTZA today).
  rewrite (localDay_startOfDay today Htoday).
  rewrite (addDays_startOfDay _ today Htoday).
  rewrite addDays_startOfDay by (apply Hmid; lia).
  replace (today + - getDay today + - ((Z.of_nat weeksToShow - 1) * 7))
    with (gridStart LocalTZA now) by (unfold weeksToShow; lia).
  apply (weeksLoop_spec history today Hvar weeksToShow (gridStart LocalTZA now)).
  intros day Hday. apply Hmid. unfold weeksToShow in Hday. lia.
Qed.

End CalendarFacts.

(** *** The sample zones *)

Lemma berlin2026_hasMidnight (day : Z) : hasMidnight berlin2026 day.
Proof.
  unfold hasMidnight, LocalTime, startOfDay, UTC, berlin2026, hour, msPerDay.
  repeat match goal with
         | |- context [?a <? ?b] => destruct (Z.ltb_spec a b)
         | |- context [?a <=? ?b] => destruct (Z.leb_spec a b)
         end; simpl; lia.
Qed.

Lemma berlin2026_offsetsWithinADay : offsetsWithinADay berlin2026.
Proof.
  intros a b. unfold berlin2026, hour, msPerDay.
  repeat match goal with
         | |- context [?a <? ?b] => destruct (Z.ltb_spec a b)
         end; lia.
Qed.

(** C8, as stated, fails: with a history entry dated tomorrow (an imported
    one, say), tomorrow's cell carries the future flag and the count 1. *)
Lemma future_day_with_activity :
  List.filter (fun cell => isFuture cell && negb (count cell =? 0)%nat)
              (concat (activityWeeks utcZone [entryAt "t" tuesdayNoon] mondayNoon))
  = [ {| date := localDay utcZone mondayNoon + 1; count := 1; isFuture := true |} ].
Proof. vm_compute. reflexivity. Qed.

(** One entry today and nothing else: one cell of the grid counts 1. *)
Example one_entry_today :
  List.filter (fun cell => (count cell =? 1)%nat)
              (concat (activityWeeks utcZone [entryAt "m" mondayNoon] mondayNoon))
  = [ {| date := localDay utcZone mondayNoon; count := 1; isFuture := false |} ].
Proof. vm_compute. reflexivity. Qed.

(** Why the days of the grid must have a local midnight.  In Cairo the
    clock skipped midnight on Friday 24 April 2026; from that day on
    [loopDate] stands at 01:00, and on Monday 2 November the cell of today
    itself, compared with [today] at 00:00, is flagged as future. *)
Example today_flagged_after_skipped_midnight :
  List.filter (fun cell => (date cell =? localDay cairo2026 mondayNoon))
              (concat (activityWeeks cairo2026 [entryAt "m" mondayNoon] mondayNoon))
  = [ {| date := localDay cairo2026 mondayNoon; count := 1; isFuture := true |} ]
  /\ ~ hasMidnight cairo2026 20567
  /\ gridStart cairo2026 mondayNoon <= 20567 < gridStart cairo2026 mondayNoon + 364.
Proof.
  split; [vm_compute; reflexivity|]. split; [vm_compute; discriminate|].
  vm_compute. split; [discriminate|reflexivity].
Qed.

(** C8, amended: in a time zone where every day of the grid has a local
    midnight and whose offset varies by less than a day, the grid has 52
    weeks of 7 days, the 364 consecutive calendar days that start on a
    Sunday and end with the Saturday of the current week; each day carries
    the number of history entries of that local calendar day, and the
    future flag exactly when it lies after today.  When no entry is dated
    after today, every future day counts 0; when one entry is dated today
    and every other one falls outside the grid, exactly one day counts 1. *)
Theorem activityWeeks_grid (LocalTZA : Z -> bool -> Z) (history : list HistoryEntry)
    (now : Z) :
  (forall day, gridStart LocalTZA now <= day < gridStart LocalTZA now + 364 ->
     hasMidnight LocalTZA day) ->
  offsetsWithinADay LocalTZA ->
  let weeks := activityWeeks LocalTZA history now in
  let cells := concat weeks in
  let today := localDay LocalTZA now in
  let start := gridStart LocalTZA now in
  length weeks = 52%nat
  /\ Forall (fun week => length week = 7%nat) weeks
  /\ List.map date cells = daysFrom start 364
  /\ getDay start = 0
  /\ start + 357 <= today <= start + 363
  /\ (forall cell, In cell cells ->
        count cell = entriesOn LocalTZA history (date cell)
        /\ isFuture cell = (today <? date cell))
  /\ ((forall entry, In entry history -> localDay LocalTZA (timestamp entry) <= today) ->
      forall cell, In cell cells -> today < date cell ->
        isFuture cell = true /\ count cell = 0%nat)
  /\ (entriesOn LocalTZA history today = 1%nat ->
      (forall entry, In entry history ->
         localDay LocalTZA (timestamp entry) = today
         \/ localDay LocalTZA (timestamp entry) < start
         \/ start + 364 <= localDay LocalTZA (timestamp entry)) ->
      length (List.filter (fun cell => (count cell =? 1)%nat) cells) = 1%nat).
Proof.
  intros Hmid Hvar weeks cells today start.
  destruct (activityWeeks_cells LocalTZA history now Hmid Hvar) as (Hlen & Hweeks & Hcells).
  fold today start in Hcells.
  assert (Hstart : start = today - getDay today - 357) by reflexivity.
  assert (Hcell : forall cell, In cell cells ->
            (start <= date cell < start + 364)
            /\ count cell = entriesOn LocalTZA history (date cell)
            /\ isFuture cell = (today <? date cell)).
  { intros cell Hin. unfold cells, weeks in Hin. rewrite Hcells in Hin.
    apply in_map_iff in Hin as (day & <- & Hday). apply in_daysFrom in Hday.
    simpl. split; [lia|]. split; reflexivity. }
  pose proof (getDay_range today) as Hrange.
  split; [exact Hlen|]. split; [exact Hweeks|].
  split.
  { unfold cells, weeks. rewrite Hcells, List.map_map. apply List.map_id. }
  split; [apply getDay_gridStart|].
  split; [lia|].
  split; [intros cell Hin; destruct (Hcell cell Hin) as (_ & Hcount & Hflag); split; assumption|].
  split.
  - intros Hpast cell Hin Hafter.
    destruct (Hcell cell Hin) as (_ & -> & ->). split; [now apply Z.ltb_lt|].
    unfold entriesOn. rewrite filter_none; [reflexivity|].
    intros entry Hentry. apply Z.eqb_neq. specialize (Hpast entry Hentry). lia.
  - intros Hone Hothers.
    unfold cells, weeks. rewrite Hcells.
    assert (Hsame : forall day, In day (daysFrom start 364) ->
              (count (calendarCell LocalTZA history today day) =? 1)%nat
              = (day =? today)).
    { intros day Hday. apply in_daysFrom in Hday. simpl.
      destruct (Z.eqb_spec day today) as [->|Hne]; [now rewrite Hone|].
      unfold entriesOn. rewrite filter_none; [reflexivity|].
      intros entry Hentry. apply Z.eqb_neq.
      destruct (Hothers entry Hentry) as [?|[?|?]]; lia. }
    rewrite (length_filter_map _ (fun day => day =? today) _ _ Hsame).
    apply daysFrom_once. lia.
Qed.

Lemma activityWeeks_grid_witness :
  List.map date (concat (activityWeeks berlin2026 [entryAt "m" mondayNoon] mondayNoon))
  = daysFrom (gridStart berlin2026 mondayNoon) 364
  /\ forall cell,
       In cell (concat (activityWeeks berlin2026 [entryAt "m" mondayNoon] mondayNoon)) ->
       count cell = entriesOn berlin2026 [entryAt "m" mondayNoon] (date cell)
       /\ isFuture cell = (localDay berlin2026 mondayNoon <? date cell).
Proof.
  destruct (activityWeeks_grid berlin2026 [entryAt "m" mondayNoon] mondayNoon
              (fun day _ => berlin2026_hasMidnight day) berlin2026_offsetsWithinADay)
    as (_ & _ & Hdays & _ & _ & Hcells & _).
  split; [exact Hdays|exact Hcells].
Defined.

End ActivityAggregator.

(** ** Request coordinator *)

Module RequestCoordinator.
Import Js App.
Import StorageService (GrammarAnalysis, RewriteAnalysis, RewriteStyle, LocalStorage).

(** *** The guard of the continuations *)

Lemma negb_eqb_true (a b : Z) : a <> b -> negb (a =? b) = true.
Proof. intros H. now apply negb_true_iff, Z.eqb_neq. Qed.

Lemma resume_stale (pending : Pending) (outcome : Outcome) (env : Env) (w : World) :
  activeRequestId w <> requestId pending -> resume pending outcome env w = w.
Proof.
  intros H. apply negb_eqb_true in H.
  destruct outcome as [[analysis|error]|[analysis|error]]; simpl; now rewrite H.
Qed.

Lemma activeRequestId_reportError (error : Error) (w : World) :
  activeRequestId (reportError error w) = activeRequestId w.
Proof. unfold reportError. now destruct (includes _ _). Qed.

(** A continuation never writes the request id. *)
Lemma activeRequestId_resume (pending : Pending) (outcome : Outcome) (env : Env) (w : World) :
  activeRequestId (resume pending outcome env w) = activeRequestId w.
Proof.
  destruct outcome as [[analysis|error]|[analysis|error]]; simpl;
    destruct (negb (activeRequestId w =? requestId pending)) eqn:E; try reflexivity;
    try apply activeRequestId_reportError.
Qed.

(** Both handlers put the clock reading in the one cell and keep it as
    their request id. *)
Lemma begin_token (request : Request) (now : Z) (w w' : World) (pending : Pending) :
  begin request now w = (w', Some pending) ->
  activeRequestId w' = now /\ requestId pending = now.
Proof.
  destruct request; simpl; unfold handleCheckGrammar, handleRewrite;
    destruct (trimIsEmpty _); try discriminate; now intros [= <- <-].
Qed.

(** *** Requests that overlap *)

(** X3: a continuation whose request id is not the one in the cell changes
    nothing, whichever handler it belongs to and however its call settled:
    no state is set, nothing is stored, nothing is reported. *)
Theorem stale_continuation_is_inert (pending : Pending) (outcome : Outcome) (env : Env)
    (w : World) :
  activeRequestId w <> requestId pending ->
  resume pending outcome env w = w.
Proof.
  intros Hstale. apply negb_eqb_true in Hstale.
  destruct outcome as [[analysis|error]|[analysis|error]]; simpl; now rewrite Hstale.
Qed.

Lemma stale_continuation_is_inert_witness :
  resume pendingAt1000 (CheckSettled (Rejected overloaded)) envA
         (fst (handleCheckGrammar 2000 typedWorld))
  = fst (handleCheckGrammar 2000 typedWorld).
Proof.
  apply (stale_continuation_is_inert pendingAt1000 (CheckSettled (Rejected overloaded)) envA
           (fst (handleCheckGrammar 2000 typedWorld))).
  vm_compute. discriminate.
Defined.

(** X4: when a request of either class begins while another of either class
    is waiting, and the clock readings of the two differ, the earlier
    continuation changes nothing whether it runs before or after the later
    one: the world ends as the later request alone leaves it. *)
Theorem later_request_wins (first second : Request) (now1 now2 : Z)
    (w w1 w2 : World) (pending1 pending2 : Pending)
    (outcome1 outcome2 : Outcome) (env1 env2 : Env) :
  begin first now1 w = (w1, Some pending1) ->
  begin second now2 w1 = (w2, Some pending2) ->
  now1 <> now2 ->
  activeRequestId w2 = requestId pending2
  /\ resume pending1 outcome1 env1 w2 = w2
  /\ resume pending1 outcome1 env1 (resume pending2 outcome2 env2 w2)
     = resume pending2 outcome2 env2 w2
  /\ resume pending2 outcome2 env2 (resume pending1 outcome1 env1 w2)
     = resume pending2 outcome2 env2 w2.
Proof.
  intros H1 H2 Hne.
  apply begin_token in H1 as [_ Hp1]. apply begin_token in H2 as [Hw2 Hp2].
  assert (Hstale : activeRequestId w2 <> requestId pending1) by congruence.
  split; [congruence|]. split; [now apply resume_stale|]. split.
  - apply resume_stale. now rewrite activeRequestId_resume.
  - now rewrite (resume_stale pending1 outcome1 env1 w2 Hstale).
Qed.

Lemma later_request_wins_witness :
  activeRequestId (fst (handleRewrite StorageService.Formal 1001
                          (fst (handleCheckGrammar 1000 typedWorld)))) = 1001
  /\ resume pendingAt1000 (CheckSettled (Resolved analysisA)) envA
            (fst (handleRewrite StorageService.Formal 1001
                    (fst (handleCheckGrammar 1000 typedWorld))))
     = fst (handleRewrite StorageService.Formal 1001 (fst (handleCheckGrammar 1000 typedWorld))).
Proof.
  destruct (later_request_wins CheckRequest (RewriteRequest StorageService.Formal) 1000 1001
              typedWorld
              (fst (handleCheckGrammar 1000 typedWorld))
              (fst (handleRewrite StorageService.Formal 1001
                      (fst (handleCheckGrammar 1000 typedWorld))))
              pendingAt1000 {| requestId := 1001; capturedText := "Helo wrld." |}
              (CheckSettled (Resolved analysisA)) (RewriteSettled (Resolved rewriteB))
              envA envB eq_refl eq_refl) as (H1 & H2 & _).
  - discriminate.
  - split; [exact H1|exact H2].
Defined.

(** C4 at two requests begun within one millisecond: the second request id
    equals the first; and after the clock has been set back, a request
    begun later gets a smaller id than one begun earlier. *)
Theorem request_ids_are_clock_readings :
  requestId <$> snd (handleCheckGrammar 1000 typedWorld) = Some 1000
  /\ requestId <$> snd (handleCheckGrammar 1000 (fst (handleCheckGrammar 1000 typedWorld)))
     = Some 1000
  /\ requestId <$> snd (handleRewrite StorageService.Formal 1000
                          (fst (handleRewrite StorageService.Formal 1000 typedWorld)))
     = Some 1000
  /\ requestId <$> snd (handleCheckGrammar 999 (fst (handleCheckGrammar 1000 typedWorld)))
     = Some 999.
Proof. repeat split. Qed.

(** C1 at two grammar checks begun within one millisecond: the first check
    is still waiting when the second begins, the second is answered and
    committed, and then the first is answered.  Its continuation passes the
    guard: it replaces the result on screen and adds a history entry; had
    its call failed, it would have raised the error alert. *)
Theorem superseded_check_commits_on_equal_clock_readings :
  let w1 := fst (handleCheckGrammar 1000 typedWorld) in
  let w2 := fst (handleCheckGrammar 1000 w1) in
  let afterSecond := handleCheckGrammar_continue pendingAt1000 (Resolved analysisB) envB w2 in
  let afterFirst := handleCheckGrammar_continue pendingAt1000 (Resolved analysisA) envA
                      afterSecond in
  let afterFirstFailed := handleCheckGrammar_continue pendingAt1000 (Rejected overloaded) envA
                            afterSecond in
  snd (handleCheckGrammar 1000 typedWorld) = Some pendingAt1000
  /\ snd (handleCheckGrammar 1000 w1) = Some pendingAt1000
  /\ grammarResult (ui afterSecond) = Some analysisB
  /\ grammarResult (ui afterFirst) = Some analysisA
  /\ List.map StorageService.id (StorageService.getHistory (storage afterFirst))
     = ["uuid-a"; "uuid-b"]
  /\ loadingState (ui afterFirstFailed) = ERROR
  /\ alerts afterFirstFailed = [genericAlert].
Proof. vm_compute. repeat split. Qed.

(** C10 at a grammar check and a rewrite begun within one millisecond: the
    rewrite does not displace the waiting check, and both requests commit:
    both results are on screen and both are in the history. *)
Theorem check_and_rewrite_both_commit_on_equal_clock_readings :
  let w1 := fst (handleCheckGrammar 1000 typedWorld) in
  let w2 := fst (handleRewrite StorageService.Formal 1000 w1) in
  let afterRewrite := handleRewrite_continue pendingAt1000 (Resolved rewriteB) envB w2 in
  let afterCheck := handleCheckGrammar_continue pendingAt1000 (Resolved analysisA) envA
                      afterRewrite in
  snd (handleCheckGrammar 1000 typedWorld) = Some pendingAt1000
  /\ snd (handleRewrite StorageService.Formal 1000 w1) = Some pendingAt1000
  /\ activeRequestId w2 = requestId pendingAt1000
  /\ rewriteResult (ui afterCheck) = Some rewriteB
  /\ grammarResult (ui afterCheck) = Some analysisA
  /\ List.map StorageService.type (StorageService.getHistory (storage afterCheck))
     = [Some StorageService.grammar; Some StorageService.rewrite].
Proof. vm_compute. repeat split. Qed.

End RequestCoordinator.

(** ** Retry policy: terminal errors, exhaustion and bounds *)

Module RetryBounds.
Import Js GeminiService RetryPolicy GeminiClient.

Lemma calls_app (t1 t2 : list Event) : calls (t1 ++ t2) = (calls t1 + calls t2)%nat.
Proof. unfold calls. now rewrite List.filter_app, length_app. Qed.

Lemma delays_app (t1 t2 : list Event) : delays (t1 ++ t2) = delays t1 ++ delays t2.
Proof. unfold delays. apply omap_app. Qed.

Lemma not_retryable_inv (error : Error) :
  retryable error = false ->
  (isMissingKey (errorMsg error) = true /\ thrownFor error = error)
  \/ (isMissingKey (errorMsg error) = false /\ isPermissionDenied (errorMsg error) = true
      /\ thrownFor error = newError "PERMISSION_DENIED")
  \/ (isMissingKey (errorMsg error) = false /\ isPermissionDenied (errorMsg error) = false
      /\ negb (isRateLimit (errorMsg error)) && negb (isServerOverload (errorMsg error)) = true
      /\ thrownFor error = error).
Proof.
  unfold retryable, thrownFor, classify.
  destruct (isMissingKey _); [auto|].
  destruct (isPermissionDenied _); [auto|].
  destruct (isRateLimit _); [discriminate|].
  destruct (isServerOverload _); [discriminate|]. auto 10.
Qed.

Section TerminalFacts.
Context {T : Type}.
Variable fn : nat -> Settled T.
Variable retries : nat.
Variable initialDelay : Z.

(** [k] retryable failures, then a failure of another class: the loop ends
    at once, with no wait after it. *)
Lemma retryLoop_terminal k : forall fuel attempt trace error,
  (attempt + k < retries)%nat -> (k < fuel)%nat ->
  failsRetryably fn attempt k ->
  fn (attempt + k)%nat = Rejected error -> retryable error = false ->
  retryLoop fn retries initialDelay fuel attempt trace
  = Some (Rejected (thrownFor error), trace ++ backoffTrace initialDelay attempt k).
Proof.
  induction k as [|k IH]; intros fuel attempt trace error Hlt Hfuel Hfail Hlast Hr;
    (destruct fuel as [|fuel]; [lia|]); simpl.
  - destruct (Nat.ltb_spec attempt retries); [simpl|lia].
    rewrite Nat.add_0_r in Hlast. rewrite Hlast.
    destruct (not_retryable_inv error Hr)
      as [(-> & ->)|[(-> & -> & ->)|(-> & -> & -> & ->)]]; reflexivity.
  - destruct (Nat.ltb_spec attempt retries); [simpl|lia].
    destruct (Hfail 0%nat) as (e & He & Hre); [lia|].
    rewrite Nat.add_0_r in He. rewrite He.
    destruct (retryable_inv e Hre) as (-> & -> & ->).
    destruct (Nat.leb_spec retries (S attempt)); [lia|].
    rewrite Nat.sub_0_r.
    rewrite (IH fuel (S attempt) _ error); try lia.
    + now rewrite <- !app_assoc.
    + now apply failsRetryably_tail.
    + now replace (S attempt + k)%nat with (attempt + S k)%nat by lia.
    + exact Hr.
Qed.

(** Whatever the operation does, the loop settles, calls it no more often
    than the attempts left, and waits once between two calls. *)
Lemma retryLoop_bounded fuel : forall attempt trace,
  (retries <= attempt + fuel)%nat ->
  exists result done,
    retryLoop fn retries initialDelay fuel attempt trace = Some (result, trace ++ done)
    /\ (calls done + attempt <= Nat.max retries attempt)%nat
    /\ length (delays done) = (calls done - 1)%nat
    /\ ((attempt < retries)%nat -> (1 <= calls done)%nat).
Proof.
  induction fuel as [|fuel IH]; intros attempt trace Hfuel; simpl.
  - destruct (Nat.ltb_spec attempt retries); simpl; [lia|].
    exists (Rejected (newError "Max retries exceeded")), [].
    rewrite app_nil_r. repeat split; first [reflexivity | unfold calls; simpl; lia].
  - destruct (Nat.ltb_spec attempt retries) as [Hlt|Hge]; simpl.
    2:{ exists (Rejected (newError "Max retries exceeded")), [].
        rewrite app_nil_r. repeat split; first [reflexivity | unfold calls; simpl; lia]. }
    assert (Hone : forall result : Settled T,
              exists done,
                Some (result, trace ++ [Call attempt]) = Some (result, trace ++ done)
                /\ (calls done + attempt <= Nat.max retries attempt)%nat
                /\ length (delays done) = (calls done - 1)%nat
                /\ ((attempt < retries)%nat -> (1 <= calls done)%nat)).
    { intros result. exists [Call attempt].
      repeat split; first [reflexivity | unfold calls; simpl; lia]. }
    destruct (fn attempt) as [v|e]; [eexists; apply Hone|].
    destruct (isMissingKey _); [eexists; apply Hone|].
    destruct (isPermissionDenied _); [eexists; apply Hone|].
    destruct (negb _ && negb _); [eexists; apply Hone|].
    destruct (Nat.leb_spec retries (S attempt)); [eexists; apply Hone|].
    rewrite Nat.sub_0_r.
    destruct (IH (S attempt)
                (trace ++ [Call attempt]
                 ++ [Warn (S attempt) (initialDelay * 2 ^ Z.of_nat attempt);
                     Delay (initialDelay * 2 ^ Z.of_nat attempt)]))
      as (result & done & Hrun & Hcalls & Hdelays & Hsome); [lia|].
    rewrite <- app_assoc.
    exists result,
      ([Call attempt]
       ++ [Warn (S attempt) (initialDelay * 2 ^ Z.of_nat attempt);
           Delay (initialDelay * 2 ^ Z.of_nat attempt)] ++ done).
    split; [rewrite Hrun; now rewrite <- !app_assoc|].
    specialize (Hsome ltac:(lia)).
    rewrite !calls_app, !delays_app, !length_app. simpl.
    change (calls [Call attempt]) with 1%nat.
    change (calls [Warn (S attempt) (initialDelay * 2 ^ Z.of_nat attempt);
                   Delay (initialDelay * 2 ^ Z.of_nat attempt)]) with 0%nat.
    repeat split; lia.
Qed.

End TerminalFacts.

Lemma sum_backoff (initialDelay : Z) (n : nat) : forall first : nat,
  List.fold_right Z.add 0
    (List.map (fun i => initialDelay * 2 ^ Z.of_nat i) (List.seq first n))
  = initialDelay * 2 ^ Z.of_nat first * (2 ^ Z.of_nat n - 1).
Proof.
  induction n as [|n IH]; intros first; simpl List.fold_right.
  - change (Z.of_nat 0) with 0. rewrite Z.pow_0_r. lia.
  - rewrite IH. rewrite !Nat2Z.inj_succ, !Z.pow_succ_r by lia. ring.
Qed.

End RetryBounds.

(** ** Retry policy: what the wrapper ends with *)

Module RetryOutcomes.
Import Js GeminiService RetryPolicy GeminiClient RetryBounds.

(** X5: a failure that is neither a rate limit nor an overload ends the
    wrapper at once, after the retryable failures before it and with no wait
    after it: a missing key and an unclassified error are rethrown as they
    are, a permission error is replaced by [Error("PERMISSION_DENIED")]. *)
Theorem retryWithBackoff_fails_at_once {T} (fn : nat -> Settled T)
    (retries : nat) (initialDelay : Z) (k : nat) (error : Error) :
  (k < retries)%nat ->
  failsRetryably fn 0 k ->
  fn k = Rejected error ->
  retryable error = false ->
  exists trace,
    retryWithBackoff fn retries initialDelay = Some (Rejected (thrownFor error), trace)
    /\ calls trace = S k
    /\ delays trace
       = List.map (fun attempt => initialDelay * 2 ^ Z.of_nat (attempt - 1)) (List.seq 1 k)
    /\ (classify error = PermissionDenied -> thrownFor error = newError "PERMISSION_DENIED")
    /\ (classify error <> PermissionDenied -> thrownFor error = error).
Proof.
  intros Hk Hfail Hlast Hr. exists (backoffTrace initialDelay 0 k).
  unfold retryWithBackoff.
  rewrite (retryLoop_terminal fn retries initialDelay k retries 0%nat [] error);
    try assumption; try lia.
  split; [reflexivity|]. split; [apply calls_backoffTrace|]. split.
  - rewrite delays_backoffTrace, <- List.seq_shift, List.map_map.
    apply List.map_ext. intros a. now rewrite Nat.sub_1_r.
  - unfold thrownFor. split; [now intros ->|].
    intros Hne. now destruct (classify error).
Qed.

Lemma retryWithBackoff_fails_at_once_witness :
  exists trace,
    retryWithBackoff rateLimitedThenForbidden 3 2000
    = Some (Rejected (newError "PERMISSION_DENIED"), trace)
    /\ calls trace = 2%nat
    /\ delays trace = [2000].
Proof.
  destruct (retryWithBackoff_fails_at_once rateLimitedThenForbidden 3 2000 1 forbidden)
    as (trace & Hrun & Hcalls & Hdelays & _).
  - lia.
  - intros j Hj. exists rateLimitedError. destruct j; [split; reflexivity|lia].
  - reflexivity.
  - reflexivity.
  - exists trace. split; [exact Hrun|]. split; [exact Hcalls|exact Hdelays].
Defined.

(** X6: when every one of the [retries >= 1] calls fails with a rate limit
    or an overload, the wrapper throws the last error after exactly
    [retries] calls; it has waited after every failure but the last, in all
    [initialDelay * (2 ^ (retries - 1) - 1)] milliseconds. *)
Theorem retryWithBackoff_exhausted {T} (fn : nat -> Settled T)
    (retries : nat) (initialDelay : Z) (lastError : Error) :
  (1 <= retries)%nat ->
  failsRetryably fn 0 retries ->
  fn (retries - 1)%nat = Rejected lastError ->
  exists trace,
    retryWithBackoff fn retries initialDelay = Some (Rejected lastError, trace)
    /\ calls trace = retries
    /\ delays trace
       = List.map (fun attempt => initialDelay * 2 ^ Z.of_nat (attempt - 1))
                  (List.seq 1 (retries - 1))
    /\ List.fold_right Z.add 0 (delays trace)
       = initialDelay * (2 ^ Z.of_nat (retries - 1) - 1).
Proof.
  intros Hpos Hfail Hlast. exists (backoffTrace initialDelay 0 (retries - 1)).
  unfold retryWithBackoff.
  destruct (Hfail (retries - 1)%nat) as (e & He & Hr); [lia|].
  simpl in He. rewrite Hlast in He. injection He as <-.
  rewrite (retryLoop_exhausted fn retries initialDelay (retries - 1) retries 0%nat []
             lastError); try assumption; try lia.
  2:{ intros j Hj. apply Hfail. lia. }
  split; [reflexivity|]. split; [rewrite calls_backoffTrace; lia|].
  rewrite delays_backoffTrace. split.
  - rewrite <- List.seq_shift, List.map_map.
    apply List.map_ext. intros a. now rewrite Nat.sub_1_r.
  - rewrite sum_backoff. change (Z.of_nat 0) with 0. rewrite Z.pow_0_r. ring.
Qed.

Lemma retryWithBackoff_exhausted_witness :
  exists trace,
    retryWithBackoff alwaysRateLimited defaultRetries defaultInitialDelay
    = Some (Rejected rateLimitedError, trace)
    /\ calls trace = 3%nat
    /\ List.fold_right Z.add 0 (delays trace) = 6000.
Proof.
  destruct (retryWithBackoff_exhausted alwaysRateLimited defaultRetries defaultInitialDelay
              rateLimitedError)
    as (trace & Hrun & Hcalls & _ & Hsum).
  - unfold defaultRetries. lia.
  - intros j Hj. exists rateLimitedError. split; reflexivity.
  - reflexivity.
  - exists trace. split; [exact Hrun|]. split; [exact Hcalls|exact Hsum].
Defined.

(** X7: whatever the operation does, the wrapper settles; it calls the
    operation at most [retries] times and at least once when [retries >= 1],
    and waits exactly once between two consecutive calls.  With
    [retries = 0] it throws [Error("Max retries exceeded")] without a call. *)
Theorem retryWithBackoff_never_exceeds {T} (fn : nat -> Settled T)
    (retries : nat) (initialDelay : Z) :
  exists result trace,
    retryWithBackoff fn retries initialDelay = Some (result, trace)
    /\ (calls trace <= retries)%nat
    /\ length (delays trace) = (calls trace - 1)%nat
    /\ ((1 <= retries)%nat -> (1 <= calls trace)%nat)
    /\ (retries = 0%nat ->
        result = Rejected (newError "Max retries exceeded") /\ trace = []).
Proof.
  destruct (retryLoop_bounded fn retries initialDelay retries 0%nat [])
    as (result & done & Hrun & Hcalls & Hdelays & Hsome); [lia|].
  exists result, done. unfold retryWithBackoff.
  split; [exact Hrun|]. split; [lia|]. split; [exact Hdelays|]. split; [intros; apply Hsome; lia|].
  intros ->. simpl in Hrun. now injection Hrun as <- <-.
Qed.

End RetryOutcomes.

(** ** Strings: trimming, slashes and quotes *)

Module StringFacts.
Import Js JsText InteractiveText.

Lemma append_cons (c : ascii) (a b : string) : String c a +:+ b = String c (a +:+ b).
Proof. reflexivity. Qed.

Lemma append_nil_l (b : string) : "" +:+ b = b.
Proof. reflexivity. Qed.

Lemma allChars_app (p : ascii -> bool) (a b : string) :
  allChars p (a +:+ b) = allChars p a && allChars p b.
Proof.
  induction a as [|c a IH]; [reflexivity|].
  rewrite append_cons. simpl. rewrite IH. now rewrite andb_assoc.
Qed.

Lemma dropLeading_spec (p : ascii -> bool) (s : string) :
  exists a, s = a +:+ dropLeading p s
            /\ allChars p a = true
            /\ startsWith p (dropLeading p s) = false.
Proof.
  induction s as [|c s (a & Hs & Ha & Hstart)]; simpl.
  - now exists "".
  - destruct (p c) eqn:Hc.
    + exists (String c a). split; [rewrite append_cons; now f_equal|].
      split; [simpl; now rewrite Hc|exact Hstart].
    + exists "". repeat split; simpl; auto.
Qed.

Lemma dropTrailing_spec (p : ascii -> bool) (s : string) :
  exists b, s = dropTrailing p s +:+ b
            /\ allChars p b = true
            /\ endsWith p (dropTrailing p s) = false.
Proof.
  induction s as [|c s (b & Hs & Hb & Hend)]; simpl.
  - now exists "".
  - destruct (p c && String.eqb (dropTrailing p s) "") eqn:Hcond.
    + apply andb_true_iff in Hcond as [Hc Hnil].
      apply String.eqb_eq in Hnil. rewrite Hnil, append_nil_l in Hs. subst b.
      exists (String c s). repeat split; simpl; auto. now rewrite Hc, Hb.
    + exists b. split; [rewrite append_cons; now f_equal|]. split; [exact Hb|]. simpl.
      destruct (dropTrailing p s) as [|d kept] eqn:Hkept; [|exact Hend].
      simpl in Hcond. now rewrite andb_true_r in Hcond.
Qed.

Lemma startsWith_dropTrailing (p : ascii -> bool) (s : string) :
  startsWith p s = false -> startsWith p (dropTrailing p s) = false.
Proof.
  destruct s as [|c s]; simpl; [reflexivity|]. intros Hc. now rewrite Hc.
Qed.

Lemma dropLeading_id (p : ascii -> bool) (s : string) :
  startsWith p s = false -> dropLeading p s = s.
Proof. destruct s as [|c s]; simpl; [reflexivity|]. now intros ->. Qed.

Lemma dropTrailing_id (p : ascii -> bool) (s : string) :
  endsWith p s = false -> dropTrailing p s = s.
Proof.
  induction s as [|c s IH]; simpl; [reflexivity|].
  destruct s as [|d s].
  - intros ->. reflexivity.
  - intros Hend. rewrite (IH Hend). now rewrite andb_false_r.
Qed.

(** What [strip] keeps is the middle of the string: only characters that
    satisfy [p] are dropped, from the two ends, and none is left there. *)
Lemma strip_spec (p : ascii -> bool) (s : string) :
  exists a b, s = a +:+ strip p s +:+ b
              /\ allChars p a = true /\ allChars p b = true
              /\ startsWith p (strip p s) = false
              /\ endsWith p (strip p s) = false.
Proof.
  destruct (dropLeading_spec p s) as (a & Hs & Ha & Hstart).
  destruct (dropTrailing_spec p (dropLeading p s)) as (b & Hd & Hb & Hend).
  exists a, b. unfold strip.
  split; [now rewrite <- Hd|]. split; [exact Ha|]. split; [exact Hb|].
  split; [now apply startsWith_dropTrailing|exact Hend].
Qed.

Lemma strip_id (p : ascii -> bool) (s : string) :
  startsWith p s = false -> endsWith p s = false -> strip p s = s.
Proof.
  intros Hstart Hend. unfold strip. rewrite (dropLeading_id p s Hstart).
  now apply dropTrailing_id.
Qed.

Lemma strip_idempotent (p : ascii -> bool) (s : string) : strip p (strip p s) = strip p s.
Proof.
  destruct (strip_spec p s) as (a & b & _ & _ & _ & Hstart & Hend).
  now apply strip_id.
Qed.

Lemma strip_empty_iff (p : ascii -> bool) (s : string) :
  strip p s = "" <-> allChars p s = true.
Proof.
  split.
  - intros Hnil. destruct (strip_spec p s) as (a & b & Hs & Ha & Hb & _).
    rewrite Hnil, append_nil_l in Hs. rewrite Hs, allChars_app, Ha, Hb. reflexivity.
  - intros Hall. unfold strip.
    assert (Hdrop : dropLeading p s = "").
    { induction s as [|c s IH]; simpl in *; [reflexivity|].
      apply andb_true_iff in Hall as [-> Hall]. now apply IH. }
    now rewrite Hdrop.
Qed.

Lemma trimIsEmpty_allChars (s : string) : trimIsEmpty s = allChars isWhiteSpace s.
Proof. induction s as [|c s IH]; simpl; [reflexivity|]. now rewrite IH. Qed.

(** The test [!s.trim()] of the handlers is the emptiness of [trim s]. *)
Lemma trimIsEmpty_trim (s : string) : trimIsEmpty s = String.eqb (trim s) "".
Proof.
  rewrite trimIsEmpty_allChars. unfold trim.
  destruct (String.eqb_spec (strip isWhiteSpace s) "") as [Hnil|Hne].
  - now apply strip_empty_iff.
  - destruct (allChars isWhiteSpace s) eqn:Hall; [|reflexivity].
    now apply strip_empty_iff in Hall.
Qed.

Lemma dropLastIf_snoc (p : ascii -> bool) (body : string) (c : ascii) :
  dropLastIf p (body +:+ String c "") = if p c then body else body +:+ String c "".
Proof.
  induction body as [|d body IH]; [reflexivity|].
  rewrite append_cons.
  transitivity (String d (dropLastIf p (body +:+ String c ""))).
  - assert (Hne : exists e rest, body +:+ String c "" = String e rest).
    { destruct body; [exists c, ""|eexists _, _]; reflexivity. }
    destruct Hne as (e & rest & ->). reflexivity.
  - rewrite IH. now destruct (p c).
Qed.

Lemma dropLastIf_id (p : ascii -> bool) (s : string) :
  endsWith p s = false -> dropLastIf p s = s.
Proof.
  induction s as [|c s IH]; simpl; [reflexivity|].
  destruct s as [|d s]; [now intros ->|]. intros Hend. now rewrite (IH Hend).
Qed.

Lemma length_dropLastIf (p : ascii -> bool) (s : string) :
  (String.length s - 1 <= String.length (dropLastIf p s) <= String.length s)%nat.
Proof.
  induction s as [|c s IH]; simpl; [lia|].
  destruct s as [|d s]; [destruct (p c); simpl; lia|].
  simpl in *. lia.
Qed.

(** X8: [formatIpa] removes slashes from the two ends of a pronunciation and
    nothing else: the input is slashes, then the output, then slashes; the
    output neither starts nor ends with a slash; a pronunciation without
    slashes at its ends is returned as it is, so formatting twice changes
    nothing more. *)
Theorem formatIpa_strips_outer_slashes (pronunciation : string) :
  (exists before after,
      pronunciation = before +:+ formatIpa pronunciation +:+ after
      /\ allChars isSlash before = true /\ allChars isSlash after = true)
  /\ startsWith isSlash (formatIpa pronunciation) = false
  /\ endsWith isSlash (formatIpa pronunciation) = false
  /\ (startsWith isSlash pronunciation = false -> endsWith isSlash pronunciation = false ->
      formatIpa pronunciation = pronunciation)
  /\ formatIpa (formatIpa pronunciation) = formatIpa pronunciation
  /\ (formatIpa pronunciation = "" <-> allChars isSlash pronunciation = true).
Proof.
  unfold formatIpa.
  destruct (strip_spec isSlash pronunciation) as (a & b & Hs & Ha & Hb & Hstart & Hend).
  split; [now exists a, b|]. split; [exact Hstart|]. split; [exact Hend|].
  split; [apply strip_id|]. split; [apply strip_idempotent|apply strip_empty_iff].
Qed.

(** X9: the quote stripping of [generateExampleSentence] removes at most one
    character from each end: a text wrapped in one pair of quotes, single or
    double, matched or not, loses exactly that pair, whatever is inside; a
    text without a quote at either end is returned as it is; the result is
    never more than two characters shorter. *)
Theorem stripQuotes_removes_one_pair (text : string) :
  (forall opening closing body,
      isQuote opening = true -> isQuote closing = true ->
      text = String opening (body +:+ String closing "") ->
      stripQuotes text = body)
  /\ (startsWith isQuote text = false -> endsWith isQuote text = false ->
      stripQuotes text = text)
  /\ (String.length text - 2 <= String.length (stripQuotes text) <= String.length text)%nat.
Proof.
  unfold stripQuotes. split; [|split].
  - intros opening closing body Hopen Hclose ->. simpl dropFirstIf. rewrite Hopen.
    rewrite dropLastIf_snoc. now rewrite Hclose.
  - intros Hstart Hend.
    assert (Hfirst : dropFirstIf isQuote text = text).
    { destruct text as [|c s]; simpl in *; [reflexivity|]. now rewrite Hstart. }
    rewrite Hfirst. now apply dropLastIf_id.
  - pose proof (length_dropLastIf isQuote (dropFirstIf isQuote text)) as Hlast.
    assert (Hfirst : (String.length text - 1 <= String.length (dropFirstIf isQuote text)
                      <= String.length text)%nat).
    { destruct text as [|c s]; simpl; [lia|]. destruct (isQuote c); simpl; lia. }
    lia.
Qed.

End StringFacts.

(** ** The client: keys and how failures reach the user *)

Module ClientFacts.
Import Js JsText GeminiService RetryPolicy GeminiClient RetryBounds StringFacts App.
Import StorageService (LocalStorage, getStoredApiKey, saveApiKey, removeApiKey,
                       API_KEY_STORAGE_KEY, Plain).

Lemma prefix_app (needle a b : string) :
  String.prefix needle a = true -> String.prefix needle (a +:+ b) = true.
Proof.
  revert needle. induction a as [|d a IH]; intros [|c needle]; simpl; try discriminate.
  - intros _. now destruct b.
  - intros _. reflexivity.
  - rewrite ?append_cons; simpl. destruct (ascii_dec c d); [apply IH|discriminate].
Qed.

Lemma includes_nil (hay : string) : includes hay "" = true.
Proof. destruct hay; reflexivity. Qed.

Lemma includes_cons (c : ascii) (hay needle : string) :
  includes (String c hay) needle = String.prefix needle (String c hay) || includes hay needle.
Proof. reflexivity. Qed.

Lemma includes_app_l (a b needle : string) :
  includes a needle = true -> includes (a +:+ b) needle = true.
Proof.
  induction a as [|c a IH].
  - destruct needle; [intros _; apply includes_nil|discriminate].
  - rewrite append_cons, !includes_cons. intros H.
    apply orb_true_iff in H as [H|H]; apply orb_true_iff.
    + left. rewrite <- append_cons. now apply prefix_app.
    + right. now apply IH.
Qed.

Lemma includes_app_r (a b needle : string) :
  includes b needle = true -> includes (a +:+ b) needle = true.
Proof.
  intros H. induction a as [|c a IH]; [exact H|].
  rewrite append_cons, includes_cons, IH. apply orb_true_r.
Qed.

(** What the handlers search is part of what the wrapper searches. *)
Lemma handlerMsg_in_errorMsg (error : Error) (needle : string) :
  includes (handlerMsg error) needle = true -> includes (errorMsg error) needle = true.
Proof.
  unfold handlerMsg, errorMsg.
  destruct (String.eqb (message error) ""); intros H.
  - now do 3 apply includes_app_r.
  - now apply includes_app_l.
Qed.

Lemma reportError_generic (error : Error) (w : World) :
  includes (handlerMsg error) "PERMISSION_DENIED" = false ->
  reportError error w
  = alert genericAlert (setUi (setLoadingState ERROR) (consoleError error w)).
Proof. unfold reportError. now intros ->. Qed.

Lemma reportError_permission (w : World) :
  reportError (newError "PERMISSION_DENIED") w
  = setUi (setCurrentView settings)
      (alert permissionDeniedAlert
         (setUi (setLoadingState ERROR) (consoleError (newError "PERMISSION_DENIED") w))).
Proof. reflexivity. Qed.

Lemma truthyString_true (value : option string) :
  truthyString value = true <-> exists key, value = Some key /\ key <> "".
Proof.
  destruct value as [key|]; simpl.
  - destruct (String.eqb_spec key ""); split; intros H; try discriminate.
    + destruct H as (k & [= <-] & Hne). contradiction.
    + eauto.
    + reflexivity.
  - split; [discriminate|]. intros (k & H & _). discriminate.
Qed.

Lemma getGenAIClient_missing (ls : LocalStorage) (envKey : option string) :
  truthyString (getStoredApiKey ls) = false -> truthyString envKey = false ->
  getGenAIClient ls envKey = inr (newError "MISSING_API_KEY").
Proof.
  unfold getGenAIClient. intros -> Henv.
  destruct envKey as [key|]; [|reflexivity].
  simpl in Henv. now destruct (String.eqb key "").
Qed.

(** X10: the key stored by the user wins over the key of the environment;
    an absent or empty stored key falls back to the environment; with
    neither, the client is refused with [Error("MISSING_API_KEY")].  A key
    that is returned is never empty.  Hence after [saveApiKey] of a
    non-empty key that key is used, and after [removeApiKey] only the
    environment decides. *)
Theorem getGenAIClient_key_priority (ls : LocalStorage) (envKey : option string) :
  (forall key, getStoredApiKey ls = Some key -> key <> "" ->
     getGenAIClient ls envKey = inl key)
  /\ (truthyString (getStoredApiKey ls) = false ->
      forall key, envKey = Some key -> key <> "" -> getGenAIClient ls envKey = inl key)
  /\ (truthyString (getStoredApiKey ls) = false -> truthyString envKey = false ->
      getGenAIClient ls envKey = inr (newError "MISSING_API_KEY"))
  /\ (forall key, getGenAIClient ls envKey = inl key -> key <> "")
  /\ (forall key, key <> "" -> getGenAIClient (saveApiKey key ls) envKey = inl key)
  /\ getGenAIClient (removeApiKey ls) envKey = getGenAIClient ∅ envKey.
Proof.
  assert (Hstored : forall (store : LocalStorage) key,
            getStoredApiKey store = Some key -> key <> "" ->
            getGenAIClient store envKey = inl key).
  { intros store key Hkey Hne. unfold getGenAIClient. rewrite Hkey. simpl.
    destruct (String.eqb_spec key ""); [contradiction|]. simpl.
    now destruct (String.eqb_spec key ""). }
  split; [apply Hstored|]. split.
  { intros Hnone key -> Hne. unfold getGenAIClient. rewrite Hnone.
    now destruct (String.eqb_spec key ""). }
  split; [apply getGenAIClient_missing|]. split.
  { intros key. unfold getGenAIClient.
    destruct (if truthyString (getStoredApiKey ls) then getStoredApiKey ls else envKey)
      as [k|]; [|discriminate].
    destruct (String.eqb_spec k ""); [discriminate|]. now intros [= <-]. }
  split.
  { intros key Hne. apply Hstored; [|exact Hne].
    unfold getStoredApiKey, saveApiKey. now rewrite lookup_insert_eq. }
  unfold getGenAIClient, getStoredApiKey, removeApiKey.
  now rewrite lookup_delete_eq, lookup_empty.
Qed.

Section ClientOperations.
Variable ls : LocalStorage.
Variable envKey : option string.
Variable generateContent : string -> nat -> Settled (option string).

Lemma attempt_without_key {T : Type} (attempt : nat -> Settled T) :
  (forall k, attempt k = Rejected (newError "MISSING_API_KEY")) ->
  retryWithBackoff attempt defaultRetries defaultInitialDelay
  = Some (Rejected (newError "MISSING_API_KEY"), [Call 0%nat]).
Proof.
  intros Hattempt. unfold retryWithBackoff.
  now rewrite (retryLoop_terminal attempt defaultRetries defaultInitialDelay 0
                 defaultRetries 0%nat [] (newError "MISSING_API_KEY"));
    [|unfold defaultRetries; lia|unfold defaultRetries; lia|intros j Hj; lia|apply Hattempt|].
Qed.

End ClientOperations.

(** X11: without a key (none stored, none in the environment) each of the
    three remote operations fails after a single attempt, with no wait and
    no retry, with [Error("MISSING_API_KEY")]; a grammar check or rewrite
    whose request is still the active one then shows the generic alert,
    stays on the same view and stores nothing. *)
Theorem missing_key_is_never_retried (ls : LocalStorage) (envKey : option string)
    (generateContent : string -> nat -> Settled (option string))
    (parseAnalysis : string -> Settled StorageService.GrammarAnalysis)
    (parseRewrite : string -> Settled StorageService.RewriteAnalysis) :
  truthyString (getStoredApiKey ls) = false ->
  truthyString envKey = false ->
  checkGrammar ls envKey generateContent parseAnalysis
  = Some (Rejected (newError "MISSING_API_KEY"), [Call 0%nat])
  /\ rewriteText ls envKey generateContent parseRewrite
     = Some (Rejected (newError "MISSING_API_KEY"), [Call 0%nat])
  /\ generateExampleSentence ls envKey generateContent
     = Some (Rejected (newError "MISSING_API_KEY"), [Call 0%nat])
  /\ forall pending env w, activeRequestId w = requestId pending ->
       forall after,
         after = handleCheckGrammar_continue pending
                   (Rejected (newError "MISSING_API_KEY")) env w
         \/ after = handleRewrite_continue pending
                      (Rejected (newError "MISSING_API_KEY")) env w ->
         alerts after = genericAlert :: alerts w
         /\ currentView (ui after) = currentView (ui w)
         /\ loadingState (ui after) = ERROR
         /\ storage after = storage w.
Proof.
  intros Hstored Henv.
  pose proof (getGenAIClient_missing ls envKey Hstored Henv) as Hmissing.
  split; [|split; [|split]].
  - apply attempt_without_key. intros k. unfold checkGrammarAttempt. now rewrite Hmissing.
  - apply attempt_without_key. intros k. unfold rewriteTextAttempt. now rewrite Hmissing.
  - apply attempt_without_key. intros k. unfold generateExampleAttempt. now rewrite Hmissing.
  - intros pending env w Hactive after [-> | ->]; simpl;
      rewrite Hactive, Z.eqb_refl; simpl; repeat split.
Qed.

Lemma missing_key_is_never_retried_witness :
  checkGrammar ∅ None quotedAnswer (fun _ => Rejected (newError "SyntaxError"))
  = Some (Rejected (newError "MISSING_API_KEY"), [Call 0%nat])
  /\ generateExampleSentence ∅ (Some "") quotedAnswer
     = Some (Rejected (newError "MISSING_API_KEY"), [Call 0%nat]).
Proof.
  split.
  - apply (missing_key_is_never_retried ∅ None quotedAnswer
             (fun _ => Rejected (newError "SyntaxError"))
             (fun _ => Rejected (newError "SyntaxError"))); reflexivity.
  - apply (missing_key_is_never_retried ∅ (Some "") quotedAnswer
             (fun _ => Rejected (newError "SyntaxError"))
             (fun _ => Rejected (newError "SyntaxError"))); reflexivity.
Defined.

(** X12: when an operation fails with an error that the wrapper classifies
    as permission denied (after any number of retried failures), the wrapper
    throws [Error("PERMISSION_DENIED")], and the handler of a request that
    is still the active one shows the permission alert and opens the
    settings view. *)
Theorem permission_denied_opens_settings {T} (fn : nat -> Settled T)
    (retries : nat) (initialDelay : Z) (k : nat) (error : Error) :
  (k < retries)%nat ->
  failsRetryably fn 0 k ->
  fn k = Rejected error ->
  classify error = PermissionDenied ->
  (exists trace,
      retryWithBackoff fn retries initialDelay
      = Some (Rejected (newError "PERMISSION_DENIED"), trace)
      /\ calls trace = S k)
  /\ forall pending env w, activeRequestId w = requestId pending ->
       forall after,
         after = handleCheckGrammar_continue pending
                   (Rejected (newError "PERMISSION_DENIED")) env w
         \/ after = handleRewrite_continue pending
                      (Rejected (newError "PERMISSION_DENIED")) env w ->
         alerts after = permissionDeniedAlert :: alerts w
         /\ currentView (ui after) = settings
         /\ loadingState (ui after) = ERROR
         /\ storage after = storage w.
Proof.
  intros Hk Hfail Hlast Hclass. split.
  - exists (backoffTrace initialDelay 0 k). unfold retryWithBackoff.
    rewrite (retryLoop_terminal fn retries initialDelay k retries 0%nat [] error);
      try assumption; try lia.
    + unfold thrownFor. rewrite Hclass. split; [reflexivity|apply calls_backoffTrace].
    + unfold retryable. now rewrite Hclass.
  - intros pending env w Hactive after [-> | ->]; simpl;
      rewrite Hactive, Z.eqb_refl; simpl; repeat split.
Qed.

Lemma permission_denied_opens_settings_witness :
  exists trace,
    retryWithBackoff rateLimitedThenForbidden 3 2000
    = Some (Rejected (newError "PERMISSION_DENIED"), trace)
    /\ calls trace = 2%nat.
Proof.
  apply (permission_denied_opens_settings rateLimitedThenForbidden 3 2000 1 forbidden).
  - lia.
  - intros j Hj. exists rateLimitedError. destruct j; [split; reflexivity|lia].
  - reflexivity.
  - reflexivity.
Defined.

(** X13: an error of the class [Other] is rethrown by the wrapper as it is,
    without a retry, and the handler of a request that is still the active
    one shows the generic alert, logs the error and leaves the view, the
    results and the storage as they were. *)
Theorem unclassified_error_raises_generic_alert {T} (fn : nat -> Settled T)
    (retries : nat) (initialDelay : Z) (k : nat) (error : Error) :
  (k < retries)%nat ->
  failsRetryably fn 0 k ->
  fn k = Rejected error ->
  classify error = Other ->
  (exists trace,
      retryWithBackoff fn retries initialDelay = Some (Rejected error, trace)
      /\ calls trace = S k)
  /\ forall pending env w, activeRequestId w = requestId pending ->
       forall after,
         after = handleCheckGrammar_continue pending (Rejected error) env w
         \/ after = handleRewrite_continue pending (Rejected error) env w ->
         alerts after = genericAlert :: alerts w
         /\ consoleErrors after = error :: consoleErrors w
         /\ currentView (ui after) = currentView (ui w)
         /\ loadingState (ui after) = ERROR
         /\ grammarResult (ui after) = grammarResult (ui w)
         /\ rewriteResult (ui after) = rewriteResult (ui w)
         /\ storage after = storage w.
Proof.
  intros Hk Hfail Hlast Hclass.
  assert (Hnot : includes (handlerMsg error) "PERMISSION_DENIED" = false).
  { destruct (includes (handlerMsg error) "PERMISSION_DENIED") eqn:Hin; [|reflexivity].
    apply handlerMsg_in_errorMsg in Hin.
    unfold classify, isPermissionDenied in Hclass. rewrite Hin in Hclass.
    destruct (isMissingKey _); discriminate Hclass. }
  split.
  - exists (backoffTrace initialDelay 0 k). unfold retryWithBackoff.
    rewrite (retryLoop_terminal fn retries initialDelay k retries 0%nat [] error);
      try assumption; try lia.
    + unfold thrownFor. rewrite Hclass. split; [reflexivity|apply calls_backoffTrace].
    + unfold retryable. now rewrite Hclass.
  - intros pending env w Hactive after [-> | ->]; simpl;
      rewrite Hactive, Z.eqb_refl; simpl; rewrite (reportError_generic error w Hnot);
      repeat split.
Qed.

Lemma unclassified_error_raises_generic_alert_witness :
  exists trace,
    retryWithBackoff (fun _ : nat => @Rejected nat (newError "No response text from Gemini"))
                     3 2000
    = Some (Rejected (newError "No response text from Gemini"), trace)
    /\ calls trace = 1%nat.
Proof.
  apply (unclassified_error_raises_generic_alert
           (fun _ : nat => @Rejected nat (newError "No response text from Gemini"))
           3 2000 0 (newError "No response text from Gemini")).
  - lia.
  - intros j Hj. lia.
  - reflexivity.
  - reflexivity.
Defined.

Lemma attempt_terminal {T : Type} (attempt : nat -> Settled T) (error : Error) :
  attempt 0%nat = Rejected error -> retryable error = false ->
  retryWithBackoff attempt defaultRetries defaultInitialDelay
  = Some (Rejected (thrownFor error), [Call 0%nat]).
Proof.
  intros Hfirst Hnot. unfold retryWithBackoff.
  now rewrite (retryLoop_terminal attempt defaultRetries defaultInitialDelay 0
                 defaultRetries 0%nat [] error);
    [|unfold defaultRetries; lia|unfold defaultRetries; lia|intros j Hj; lia| |].
Qed.

(** X14: with a key at hand, a response without text is a failure that is
    not retried: [checkGrammar] and [rewriteText] fail after their first
    call with [Error("No response text from Gemini")], and
    [generateExampleSentence] fails after its first call with
    [Error("No text generated")] when the response text is missing or is
    only white space. *)
Theorem empty_response_is_not_retried (ls : LocalStorage) (envKey : option string)
    (generateContent : string -> nat -> Settled (option string))
    (parseAnalysis : string -> Settled StorageService.GrammarAnalysis)
    (parseRewrite : string -> Settled StorageService.RewriteAnalysis)
    (key : string) (responseText : option string) :
  getGenAIClient ls envKey = inl key ->
  generateContent key 0%nat = Resolved responseText ->
  trimIsEmpty (default "" responseText) = true ->
  (truthyString responseText = false ->
     checkGrammar ls envKey generateContent parseAnalysis
     = Some (Rejected (newError "No response text from Gemini"), [Call 0%nat])
     /\ rewriteText ls envKey generateContent parseRewrite
        = Some (Rejected (newError "No response text from Gemini"), [Call 0%nat]))
  /\ generateExampleSentence ls envKey generateContent
     = Some (Rejected (newError "No text generated"), [Call 0%nat]).
Proof.
  intros Hkey Hresponse Hblank. split; [intros Hempty; split|].
  - apply (attempt_terminal _ (newError "No response text from Gemini")); [|reflexivity].
    unfold checkGrammarAttempt. now rewrite Hkey, Hresponse, Hempty.
  - apply (attempt_terminal _ (newError "No response text from Gemini")); [|reflexivity].
    unfold rewriteTextAttempt. now rewrite Hkey, Hresponse, Hempty.
  - apply (attempt_terminal _ (newError "No text generated")); [|reflexivity].
    unfold generateExampleAttempt. rewrite Hkey, Hresponse.
    rewrite trimIsEmpty_trim in Hblank. now rewrite Hblank.
Qed.

Lemma empty_response_is_not_retried_witness :
  generateExampleSentence storageWithKey None (fun _ _ => Resolved (Some "  "))
  = Some (Rejected (newError "No text generated"), [Call 0%nat]).
Proof.
  apply (empty_response_is_not_retried storageWithKey None (fun _ _ => Resolved (Some "  "))
           (fun _ => Rejected (newError "SyntaxError"))
           (fun _ => Rejected (newError "SyntaxError")) "user-key" (Some "  "));
    reflexivity.
Defined.

End ClientFacts.

(** ** The store: what a saved entry records, and what the saves keep *)

Module StoreFacts.
Import Js JsFacts StorageService DurableStore.

Lemma length_filter_split {A : Type} (p q r : A -> bool) (l : list A) :
  (forall x, In x l -> p x = q x || r x) ->
  (forall x, In x l -> q x && r x = false) ->
  length (List.filter p l) = (length (List.filter q l) + length (List.filter r l))%nat.
Proof.
  induction l as [|x l IH]; intros Hp Hqr; [reflexivity|].
  simpl. rewrite (Hp x (or_introl eq_refl)).
  pose proof (Hqr x (or_introl eq_refl)) as Hx.
  assert (IH' := IH (fun y Hy => Hp y (or_intror Hy)) (fun y Hy => Hqr y (or_intror Hy))).
  destruct (q x), (r x); simpl in *; try discriminate; lia.
Qed.

Lemma length_filter_zero {A : Type} (p : A -> bool) (l : list A) :
  length (List.filter p l) = 0%nat <-> forall x, In x l -> p x = false.
Proof.
  induction l as [|x l IH]; simpl.
  - split; [intros _ x []|reflexivity].
  - destruct (p x) eqn:Hx; simpl.
    + split; [discriminate|]. intros H. rewrite (H x (or_introl eq_refl)) in Hx. discriminate.
    + rewrite IH. split.
      * intros H y [<-|Hy]; [exact Hx|now apply H].
      * intros H y Hy. apply H. now right.
Qed.

Lemma error_segment_kinds (s : Segment) :
  isError s = isCriticalError s || isSuggestion s
  /\ isCriticalError s && isSuggestion s = false.
Proof.
  unfold isCriticalError, isSuggestion.
  destruct (isError s), (severity s) as [[]|]; split; reflexivity.
Qed.

(** X15: a saved grammar entry counts every segment flagged as an error
    exactly once, as an error (severity [critical] or none) or as a
    suggestion, and is perfect exactly when no segment is flagged; rewrite
    and dictionary entries are always perfect with both counts zero. *)
Theorem saved_entry_counts (uuid : string) (now : Z) :
  (forall text analysis,
      let entry := grammarEntry uuid now text analysis in
      (errorCount entry + suggestionCount entry)%nat = countSegments isError analysis
      /\ (isPerfect entry = true <->
          forall s, In s (segments analysis) -> isError s = false)
      /\ (isPerfect entry = false <->
          exists s, In s (segments analysis) /\ isError s = true))
  /\ (forall analysis,
        let entry := rewriteEntry uuid now analysis in
        errorCount entry = 0%nat /\ suggestionCount entry = 0%nat /\ isPerfect entry = true)
  /\ (forall term,
        let entry := dictionaryEntry uuid now term in
        errorCount entry = 0%nat /\ suggestionCount entry = 0%nat /\ isPerfect entry = true).
Proof.
  split; [|split; intros; repeat split].
  intros text analysis entry.
  assert (Hsum : (errorCount entry + suggestionCount entry)%nat
                 = countSegments isError analysis).
  { subst entry. unfold grammarEntry, countSegments. cbn [errorCount suggestionCount].
    symmetry. apply length_filter_split; intros s _; apply error_segment_kinds. }
  assert (Hperfect : isPerfect entry = true <->
                     forall s, In s (segments analysis) -> isError s = false).
  { rewrite <- (length_filter_zero isError). fold (countSegments isError analysis).
    rewrite <- Hsum. subst entry. unfold grammarEntry.
    cbn [errorCount suggestionCount isPerfect].
    rewrite andb_true_iff, !Nat.eqb_eq. lia. }
  split; [exact Hsum|]. split; [exact Hperfect|].
  split.
  - intros Hfalse.
    destruct (existsb isError (segments analysis)) eqn:Hex.
    + apply existsb_exists in Hex. exact Hex.
    + assert (isPerfect entry = true); [|congruence].
      apply Hperfect. intros s Hs.
      destruct (isError s) eqn:Herr; [|reflexivity].
      assert (existsb isError (segments analysis) = true); [|congruence].
      apply existsb_exists. eauto.
  - intros (s & Hs & Herr).
    destruct (isPerfect entry) eqn:Hp; [|reflexivity].
    rewrite (proj1 Hperfect eq_refl s Hs) in Herr. discriminate.
Qed.

Lemma getStats_fields (ls : LocalStorage) :
  totalChecks (getStats ls) = length (List.filter isGrammar (getHistory ls))
  /\ totalErrors (getStats ls)
     = list_sum (List.map errorCount (List.filter isGrammar (getHistory ls)))
  /\ perfectRuns (getStats ls)
     = length (List.filter isPerfect (List.filter isGrammar (getHistory ls))).
Proof.
  unfold getStats.
  destruct (List.filter isGrammar (getHistory ls)) as [|h rest]; [repeat split|].
  cbn [length Nat.eqb totalChecks totalErrors perfectRuns].
  rewrite fold_left_errorCount. repeat split.
Qed.

Lemma getStats_ext (a b : LocalStorage) :
  getHistory a = getHistory b -> getStats a = getStats b.
Proof. unfold getStats. now intros ->. Qed.

Lemma filter_Permutation' {A : Type} (p : A -> bool) (l1 l2 : list A) :
  Permutation l1 l2 -> Permutation (List.filter p l1) (List.filter p l2).
Proof.
  induction 1 as [|x l1 l2 _ IH|x y l|l1 l2 l3 _ IH1 _ IH2]; simpl.
  - constructor.
  - destruct (p x); [now constructor|exact IH].
  - destruct (p x), (p y); try reflexivity. constructor.
  - now transitivity (List.filter p l2).
Qed.

Lemma list_sum_Permutation (l1 l2 : list nat) :
  Permutation l1 l2 -> list_sum l1 = list_sum l2.
Proof. induction 1; simpl; lia. Qed.

Lemma getStats_perm (a b : LocalStorage) :
  Permutation (getHistory a) (getHistory b) -> getStats a = getStats b.
Proof.
  intros Hperm. unfold getStats.
  pose proof (filter_Permutation' isGrammar _ _ Hperm) as Hgrammar.
  rewrite (Permutation_length Hgrammar).
  rewrite !fold_left_errorCount.
  rewrite (list_sum_Permutation _ _ (Permutation_map errorCount Hgrammar)).
  now rewrite (Permutation_length (filter_Permutation' isPerfect _ _ Hgrammar)).
Qed.

Lemma getStats_prepend_other (entry : HistoryEntry) (ls : LocalStorage) :
  isGrammar entry = false -> getStats (prependEntry entry ls) = getStats ls.
Proof.
  intros Hother. unfold getStats. rewrite getHistory_prependEntry. simpl.
  now rewrite Hother.
Qed.

Lemma getStats_prepend_grammar (entry : HistoryEntry) (ls : LocalStorage) :
  isGrammar entry = true ->
  totalChecks (getStats (prependEntry entry ls)) = S (totalChecks (getStats ls))
  /\ totalErrors (getStats (prependEntry entry ls))
     = (errorCount entry + totalErrors (getStats ls))%nat
  /\ perfectRuns (getStats (prependEntry entry ls))
     = ((if isPerfect entry then 1 else 0) + perfectRuns (getStats ls))%nat.
Proof.
  intros Hgrammar.
  destruct (getStats_fields (prependEntry entry ls)) as (Hc & He & Hp).
  destruct (getStats_fields ls) as (Hc' & He' & Hp').
  rewrite Hc, He, Hp, Hc', He', Hp', getHistory_prependEntry.
  simpl. rewrite Hgrammar. simpl. destruct (isPerfect entry); repeat split.
Qed.

(** X16: the statistics count grammar checks only.  Saving a rewrite or a
    dictionary look-up leaves every field of [getStats] as it was; saving a
    grammar check adds one check, its error count to the errors and, when
    it is perfect, one perfect run.  Each save puts its entry in front of
    the history and leaves every other record of the storage alone. *)
Theorem saves_and_stats (uuid : string) (now : Z) (ls : LocalStorage) :
  (forall text analysis,
      getStats (saveRewriteHistory uuid now text analysis ls) = getStats ls)
  /\ (forall term, getStats (saveDictionaryHistory uuid now term ls) = getStats ls)
  /\ (forall text analysis,
        let entry := grammarEntry uuid now text analysis in
        let after := getStats (saveHistory uuid now text analysis ls) in
        totalChecks after = S (totalChecks (getStats ls))
        /\ totalErrors after = (errorCount entry + totalErrors (getStats ls))%nat
        /\ perfectRuns after
           = ((if isPerfect entry then 1 else 0) + perfectRuns (getStats ls))%nat)
  /\ (forall entry key, key <> STORAGE_KEY -> prependEntry entry ls !! key = ls !! key).
Proof.
  split; [|split; [|split]].
  - intros. now apply getStats_prepend_other.
  - intros. now apply getStats_prepend_other.
  - intros text analysis entry after. subst after.
    now apply getStats_prepend_grammar.
  - intros entry key Hkey. unfold prependEntry. now rewrite lookup_insert_ne.
Qed.

Lemma NoDup_map_filter {A B : Type} (f : A -> B) (p : A -> bool) (l : list A) :
  NoDup (List.map f l) -> NoDup (List.map f (List.filter p l)).
Proof.
  induction l as [|x l IH]; simpl; [auto|].
  intros Hnodup. apply NoDup_cons in Hnodup as [Hnotin Hnodup].
  destruct (p x); simpl; [|auto].
  apply NoDup_cons. split; [|auto].
  intros Hin. apply Hnotin.
  apply list_elem_of_In in Hin. apply list_elem_of_In.
  apply in_map_iff in Hin as (y & Hy & Hin). apply in_map_iff.
  exists y. split; [exact Hy|]. now apply filter_In in Hin as [Hin _].
Qed.

Lemma NoDup_accepted_current (historyToMerge current : list HistoryEntry) :
  NoDup (List.map id historyToMerge) -> NoDup (List.map id current) ->
  NoDup (List.map id (accepted historyToMerge current ++ current)).
Proof.
  intros Hitems Hcurrent. rewrite map_app. apply NoDup_app.
  split; [now apply NoDup_map_filter|]. split; [|exact Hcurrent].
  intros key Hkey Hheld.
  apply list_elem_of_In, in_map_iff in Hkey as (x & <- & Hx).
  apply list_elem_of_In, in_map_iff in Hheld as (y & Hy & Hin).
  apply in_accepted in Hx as (_ & _ & Hfresh). now apply (Hfresh y).
Qed.

(** X17: an import never loses an entry of the current history and adds
    only entries of the file that carry an id; it writes no record but the
    history.  Ids stay distinct when they are distinct in the history and
    distinct in the file.  Entries are compared with the current history
    only: a file that holds a new entry twice puts it into the history
    twice. *)
Theorem import_keeps_ids_distinct (parsed : Json) (items : list HistoryEntry)
    (ls : LocalStorage) :
  fileEntries parsed = Some items ->
  let after := getHistory (snd (importHistoryJSON (Some parsed) ls)) in
  (NoDup (List.map id items) -> NoDup (List.map id (getHistory ls)) ->
   NoDup (List.map id after))
  /\ (forall x, In x (getHistory ls) -> In x after)
  /\ (forall x, In x after -> In x (getHistory ls) \/ (In x items /\ id x <> ""))
  /\ (forall key, key <> STORAGE_KEY ->
        snd (importHistoryJSON (Some parsed) ls) !! key = ls !! key)
  /\ (forall x, items = [x; x] -> id x <> "" ->
        (forall y, In y (getHistory ls) -> id y <> id x) ->
        Permutation after (x :: x :: getHistory ls)).
Proof.
  intros Hfile after. subst after.
  rewrite (importHistoryJSON_accepts parsed items ls Hfile). cbn [snd].
  rewrite getHistory_insert.
  pose proof (mergeHistory_perm items (getHistory ls)) as Hperm.
  split.
  { intros Hitems Hcurrent.
    rewrite (Permutation_map id Hperm). now apply NoDup_accepted_current. }
  split.
  { intros x Hx. apply (Permutation_in x (Permutation_sym Hperm)).
    apply in_or_app. now right. }
  split.
  { intros x Hx. apply (Permutation_in x Hperm) in Hx.
    apply in_app_or in Hx as [Hx|Hx]; [right|now left].
    now apply in_accepted in Hx as (Hin & Hid & _). }
  split.
  { intros key Hkey. now rewrite lookup_insert_ne. }
  intros x -> Hid Hfresh.
  assert (Htaken : accepted [x; x] (getHistory ls) = [x; x]).
  { assert (Hx : In x (accepted [x; x] (getHistory ls))).
    { apply in_accepted. split; [now left|]. now split. }
    unfold accepted in *. simpl in *.
    destruct (negb (String.eqb (id x) "") && negb (bool_decide _)); [reflexivity|].
    destruct Hx. }
  now rewrite Htaken in Hperm.
Qed.

Lemma import_keeps_ids_distinct_witness :
  NoDup (List.map id (getHistory (snd (importHistoryJSON (Some backupWithBoth)
                                                          storageWithHistory)))).
Proof.
  apply (import_keeps_ids_distinct backupWithBoth [laterEntry; olderEntry]
           storageWithHistory eq_refl).
  - apply (bool_decide_unpack _). reflexivity.
  - apply (bool_decide_unpack _). reflexivity.
Defined.

Lemma accepted_all (historyToMerge : list HistoryEntry) :
  (forall x, In x historyToMerge -> id x <> "") -> accepted historyToMerge [] = historyToMerge.
Proof.
  intros Hids. unfold accepted. simpl.
  induction historyToMerge as [|x l IH]; [reflexivity|]. simpl.
  destruct (String.eqb_spec (id x) "") as [Hempty|_].
  - now destruct (Hids x (or_introl eq_refl)).
  - simpl. rewrite bool_decide_eq_false_2 by set_solver. simpl. f_equal.
    apply IH. intros y Hy. apply Hids. now right.
Qed.

Lemma getHistory_clearHistory (ls : LocalStorage) : getHistory (clearHistory ls) = [].
Proof. unfold getHistory, clearHistory. now rewrite lookup_delete_eq. Qed.

(** X18: a backup outlives [clearHistory].  Clearing empties the history,
    zeroes the statistics and touches no other record; importing the
    store's own export leaves the statistics as they were; and when every
    entry carries an id, importing the export taken before the clearing
    brings back the same entries, newest first, with the same statistics. *)
Theorem backup_survives_clearHistory (ls : LocalStorage) (data : ExportData) :
  exportHistoryJSON ls = Some data ->
  (forall x, In x (getHistory ls) -> id x <> "") ->
  let cleared := clearHistory ls in
  let restored := snd (importHistoryJSON (Some (backupFile data)) cleared) in
  getHistory cleared = []
  /\ getStats cleared
     = {| totalChecks := 0; totalErrors := 0; accuracyRate := 0; perfectRuns := 0 |}
  /\ (forall key, key <> STORAGE_KEY -> cleared !! key = ls !! key)
  /\ getStats (snd (importHistoryJSON (Some (backupFile data)) ls)) = getStats ls
  /\ Permutation (getHistory restored) (getHistory ls)
  /\ Sorted newestFirstOrder (getHistory restored)
  /\ getStats restored = getStats ls
  /\ (forall key, key <> STORAGE_KEY -> restored !! key = ls !! key)
  /\ (Sorted newestFirstOrder (getHistory ls) -> getHistory restored = getHistory ls).
Proof.
  intros Hexport Hids cleared restored.
  assert (Hbackup : fileEntries (backupFile data) = Some (getHistory ls)).
  { simpl. now rewrite (exportedHistory_getHistory ls data Hexport). }
  assert (Hrestored : getHistory restored = sort newestFirst (getHistory ls)).
  { subst restored cleared.
    rewrite (importHistoryJSON_accepts _ _ _ Hbackup). cbn [snd].
    rewrite getHistory_insert, getHistory_clearHistory.
    unfold mergeHistory. fold (accepted (getHistory ls) []).
    now rewrite (accepted_all _ Hids), app_nil_r. }
  split; [apply getHistory_clearHistory|].
  split.
  { unfold getStats. subst cleared. now rewrite getHistory_clearHistory. }
  split.
  { intros key Hkey. subst cleared. unfold clearHistory. now rewrite lookup_delete_ne. }
  split.
  { apply getStats_perm.
    rewrite (importHistoryJSON_accepts _ _ _ Hbackup). cbn [snd].
    rewrite getHistory_insert, mergeHistory_self. apply sort_perm. }
  split; [rewrite Hrestored; apply sort_perm|].
  split.
  { rewrite Hrestored. apply Sorted_newestFirst, sort_sorted.
    intros x y. unfold newestFirst. lia. }
  split; [apply getStats_perm; rewrite Hrestored; apply sort_perm|].
  split.
  { intros key Hkey. subst restored cleared.
    rewrite (importHistoryJSON_accepts _ _ _ Hbackup). cbn [snd].
    unfold clearHistory. now rewrite lookup_insert_ne, lookup_delete_ne. }
  intros Hsorted. rewrite Hrestored. now apply sort_of_sorted, Sorted_newestFirst.
Qed.

Lemma backup_survives_clearHistory_witness :
  getHistory (snd (importHistoryJSON (Some (backupFile exportOfStorageWithHistory))
                                     (clearHistory storageWithHistory)))
  = getHistory storageWithHistory.
Proof.
  apply (backup_survives_clearHistory storageWithHistory exportOfStorageWithHistory eq_refl).
  - intros x [<-|[]]. discriminate.
  - repeat constructor.
Defined.

(** X19: the app state survives a reload.  After the read made at start-up,
    which settles the version tag, a saved state is read back as it was
    saved and reading changes nothing more; saving the state touches
    neither the history nor the API key.  Without that first read, a state
    saved under another version tag is dropped by the next read. *)
Theorem app_state_round_trip (state : AppState) (ls : LocalStorage) :
  let started := snd (getAppState ls) in
  getAppState (saveAppState state started) = (Some state, saveAppState state started)
  /\ getAppState started = (fst (getAppState ls), started)
  /\ getHistory (saveAppState state ls) = getHistory ls
  /\ getStoredApiKey (saveAppState state ls) = getStoredApiKey ls
  /\ (isCurrentVersion (ls !! VERSION_KEY) = false ->
      fst (getAppState (saveAppState state ls)) = None
      /\ snd (getAppState (saveAppState state ls)) !! STATE_KEY = None).
Proof.
  intros started.
  assert (Hversion : isCurrentVersion (started !! VERSION_KEY) = true).
  { subst started. unfold getAppState.
    destruct (isCurrentVersion (ls !! VERSION_KEY)) eqn:Hv.
    - now destruct (ls !! STATE_KEY) as [[]|].
    - cbn [snd]. now rewrite lookup_insert_eq. }
  split.
  { unfold getAppState at 1. unfold saveAppState.
    rewrite lookup_insert_ne by discriminate. rewrite Hversion.
    now rewrite lookup_insert_eq. }
  split.
  { unfold getAppState at 1. rewrite Hversion. subst started. unfold getAppState.
    destruct (isCurrentVersion (ls !! VERSION_KEY)) eqn:Hv; cbn [fst snd].
    - destruct (ls !! STATE_KEY) as [[]|] eqn:Hs; cbn [fst snd]; now rewrite ?Hs.
    - rewrite lookup_insert_ne by discriminate. now rewrite lookup_delete_eq. }
  split.
  { unfold getHistory, saveAppState. now rewrite lookup_insert_ne by discriminate. }
  split.
  { unfold getStoredApiKey, saveAppState. now rewrite lookup_insert_ne by discriminate. }
  intros Hold. unfold getAppState, saveAppState.
  rewrite lookup_insert_ne by discriminate. rewrite Hold. cbn [fst snd].
  split; [reflexivity|].
  rewrite lookup_insert_ne by discriminate. now rewrite lookup_delete_eq.
Qed.

End StoreFacts.

(** ** The settings page and the key the client uses *)

Module SettingsFacts.
Import Js JsText StorageService GeminiClient SettingsPage StringFacts.

Lemma getGenAIClient_stored (ls : LocalStorage) (envKey : option string) (key : string) :
  getStoredApiKey ls = Some key -> key <> "" -> getGenAIClient ls envKey = inl key.
Proof.
  intros Hkey Hne. unfold getGenAIClient. rewrite Hkey. simpl.
  destruct (String.eqb_spec key ""); [contradiction|]. simpl.
  now destruct (String.eqb_spec key "").
Qed.

(** X20: the settings page stores the typed key without the white space
    around it, and the client then uses that key whatever the environment
    holds; a key of white space only is not stored and nothing changes;
    removing the key empties the field and leaves the client with the key
    of the environment alone.  Neither button touches the history. *)
Theorem settings_key_round_trip (state : SettingsState) (ls : LocalStorage)
    (envKey : option string) :
  (trimIsEmpty (apiKey state) = false ->
     getStoredApiKey (snd (handleSave state ls)) = Some (trim (apiKey state))
     /\ getGenAIClient (snd (handleSave state ls)) envKey = inl (trim (apiKey state))
     /\ isSaved (fst (handleSave state ls)) = true
     /\ startsWith isWhiteSpace (trim (apiKey state)) = false
     /\ endsWith isWhiteSpace (trim (apiKey state)) = false)
  /\ (trimIsEmpty (apiKey state) = true -> handleSave state ls = (state, ls))
  /\ getStoredApiKey (snd (handleRemove state ls)) = None
  /\ getGenAIClient (snd (handleRemove state ls)) envKey = getGenAIClient ∅ envKey
  /\ handleSave (fst (handleRemove state ls)) (snd (handleRemove state ls))
     = handleRemove state ls
  /\ getHistory (snd (handleSave state ls)) = getHistory ls
  /\ getHistory (snd (handleRemove state ls)) = getHistory ls.
Proof.
  split; [|split; [|split; [|split; [|split; [|split]]]]].
  - intros Hblank. rewrite trimIsEmpty_trim in Hblank.
    unfold handleSave. rewrite Hblank. cbn [fst snd].
    assert (Hstored : getStoredApiKey (saveApiKey (trim (apiKey state)) ls)
                      = Some (trim (apiKey state))).
    { unfold getStoredApiKey, saveApiKey. now rewrite lookup_insert_eq. }
    split; [exact Hstored|]. split.
    { apply getGenAIClient_stored; [exact Hstored|].
      intros Hempty. now rewrite Hempty in Hblank. }
    split; [reflexivity|].
    destruct (strip_spec isWhiteSpace (apiKey state)) as (a & b & _ & _ & _ & Hs & He).
    now split.
  - intros Hblank. rewrite trimIsEmpty_trim in Hblank. unfold handleSave. now rewrite Hblank.
  - unfold handleRemove, getStoredApiKey, removeApiKey. cbn [snd].
    now rewrite lookup_delete_eq.
  - unfold handleRemove, getGenAIClient, getStoredApiKey, removeApiKey. cbn [snd].
    now rewrite lookup_delete_eq, lookup_empty.
  - reflexivity.
  - unfold handleSave. destruct (String.eqb _ _); [reflexivity|]. cbn [snd].
    unfold getHistory, saveApiKey. now rewrite lookup_insert_ne by discriminate.
  - unfold handleRemove, getHistory, removeApiKey. cbn [snd].
    now rewrite lookup_delete_ne by discriminate.
Qed.

End SettingsFacts.

(** ** The profile page: usage, badges, restore and the calendar *)

Module ProfileFacts.
Import Js JsFacts StorageService DurableStore StoreFacts Profile ActivityAggregator ProfileView.

(** X21: the usage chart counts every history entry exactly once, an entry
    without a type as a grammar check; its grammar count is the
    [totalChecks] of the statistics; the history table lists every entry
    but the dictionary look-ups, in the order of the history. *)
Theorem usage_breakdown_counts_every_entry (ls : LocalStorage) :
  let history := getHistory ls in
  totalUsage history = length history
  /\ grammarCount history = totalChecks (getStats ls)
  /\ length (tableRows history) = (grammarCount history + rewriteCount history)%nat
  /\ (forall entry, In entry (tableRows history) <->
        In entry history /\ type entry <> Some dictionary)
  /\ (dictCount history = 0%nat -> tableRows history = history).
Proof.
  intros history.
  assert (Hrows : length (tableRows history)
                  = (grammarCount history + rewriteCount history)%nat).
  { unfold tableRows, grammarCount, rewriteCount. apply length_filter_split.
    - intros entry _. unfold isGrammar. now destruct (type entry) as [[]|].
    - intros entry _. unfold isGrammar. now destruct (type entry) as [[]|]. }
  split.
  { unfold totalUsage. rewrite <- Hrows.
    rewrite <- (filter_length (fun h => match type h with Some dictionary => false | _ => true end)
                  history).
    unfold tableRows, dictCount. f_equal. f_equal.
    apply filter_ext. intros entry. now destruct (type entry) as [[]|]. }
  split.
  { now destruct (getStats_fields ls) as (-> & _). }
  split; [exact Hrows|].
  split.
  { intros entry. unfold tableRows. rewrite filter_In.
    destruct (type entry) as [[]|]; split; intros [Hin H]; split;
      try exact Hin; try reflexivity; try discriminate; try congruence. }
  intros Hnone. unfold tableRows, dictCount in *.
  pose proof (proj1 (length_filter_zero _ _) Hnone) as Hnot.
  apply forallb_filter_id. apply forallb_forall. intros entry Hin.
  specialize (Hnot entry Hin). cbn beta in Hnot. now destruct (type entry) as [[]|].
Qed.

(** X22: the dot shown for an entry the store has saved.  A rewrite is
    purple.  A grammar check is green exactly when no segment was flagged,
    red exactly when some flagged segment is an error (severity [critical]
    or none), and yellow exactly when segments were flagged and all of them
    are suggestions. *)
Theorem badge_of_saved_entries (uuid : string) (now : Z) :
  (forall analysis, getResultBadge (rewriteEntry uuid now analysis) = purple)
  /\ (forall text analysis,
        let badge := getResultBadge (grammarEntry uuid now text analysis) in
        (badge = green <-> forall s, In s (segments analysis) -> isError s = false)
        /\ (badge = red <-> exists s, In s (segments analysis) /\ isCriticalError s = true)
        /\ (badge = yellow <->
            (exists s, In s (segments analysis) /\ isError s = true)
            /\ forall s, In s (segments analysis) -> isError s = true ->
                 severity s = Some suggestion)
        /\ badge <> purple).
Proof.
  split; [reflexivity|]. intros text analysis badge.
  pose proof (length_filter_zero isCriticalError (segments analysis)) as Hcritical.
  pose proof (length_filter_zero isSuggestion (segments analysis)) as Hsuggest.
  fold (countSegments isCriticalError analysis) in Hcritical.
  fold (countSegments isSuggestion analysis) in Hsuggest.
  assert (Hkinds : forall s, isError s = true ->
            (isCriticalError s = true /\ severity s <> Some suggestion)
            \/ (isCriticalError s = false /\ isSuggestion s = true
                /\ severity s = Some suggestion)).
  { intros s Hs. unfold isCriticalError, isSuggestion. rewrite Hs.
    destruct (severity s) as [[]|]; simpl; [left|right|left]; repeat split; discriminate. }
  assert (Hsome : forall p, (countSegments p analysis =? 0)%nat = false
                            <-> exists s, In s (segments analysis) /\ p s = true).
  { intros p. rewrite Nat.eqb_neq. unfold countSegments. split.
    - intros Hn. destruct (existsb p (segments analysis)) eqn:Hex.
      + now apply existsb_exists in Hex.
      + destruct Hn. apply length_filter_zero. intros s Hs.
        destruct (p s) eqn:Hp; [|reflexivity].
        assert (existsb p (segments analysis) = true); [|congruence].
        apply existsb_exists. eauto.
    - intros (s & Hs & Hp) Hz.
      rewrite (proj1 (length_filter_zero p (segments analysis)) Hz s Hs) in Hp. discriminate. }
  subst badge. unfold getResultBadge, grammarEntry. cbn [type isPerfect errorCount].
  destruct (countSegments isCriticalError analysis =? 0)%nat eqn:Hc;
    destruct (countSegments isSuggestion analysis =? 0)%nat eqn:Hs; cbn [andb].
  - apply Nat.eqb_eq in Hc as Hc0, Hs as Hs0.
    assert (Hclean : forall s, In s (segments analysis) -> isError s = false).
    { intros s Hin. destruct (isError s) eqn:He; [|reflexivity].
      destruct (Hkinds s He) as [(Hk & _)|(_ & Hk & _)].
      - rewrite (proj1 Hcritical Hc0 s Hin) in Hk. discriminate.
      - rewrite (proj1 Hsuggest Hs0 s Hin) in Hk. discriminate. }
    repeat split; try discriminate; try (intros _; exact Hclean).
    + intros (s & Hin & Hk). rewrite (proj1 Hcritical Hc0 s Hin) in Hk. discriminate.
    + intros ((s & Hin & He) & _). rewrite (Hclean s Hin) in He. discriminate.
  - apply Nat.eqb_eq in Hc as Hc0. rewrite Hc0. cbn [Nat.ltb Nat.leb].
    apply Hsome in Hs as (s0 & Hin0 & Hs0).
    assert (He0 : isError s0 = true).
    { unfold isSuggestion in Hs0. now destruct (isError s0). }
    repeat split; try discriminate.
    + intros Hclean. rewrite (Hclean s0 Hin0) in He0. discriminate.
    + intros (s & Hin & Hk). rewrite (proj1 Hcritical Hc0 s Hin) in Hk. discriminate.
    + eauto.
    + intros s Hin He. destruct (Hkinds s He) as [(Hk & _)|(_ & _ & Hsev)]; [|exact Hsev].
      rewrite (proj1 Hcritical Hc0 s Hin) in Hk. discriminate.
  - apply Hsome in Hc as Hex. destruct Hex as (s0 & Hin0 & Hk0).
    assert (He0 : isError s0 = true).
    { unfold isCriticalError in Hk0. now destruct (isError s0). }
    apply Nat.eqb_neq in Hc.
    destruct (countSegments isCriticalError analysis) as [|n]; [now destruct Hc|].
    cbn [Nat.ltb Nat.leb].
    repeat split; try discriminate; eauto.
    + intros Hclean. rewrite (Hclean s0 Hin0) in He0. discriminate.
    + intros ((_ & _) & Hall). specialize (Hall s0 Hin0 He0).
      unfold isCriticalError in Hk0. rewrite He0, Hall in Hk0. discriminate.
  - apply Hsome in Hc as Hex. destruct Hex as (s0 & Hin0 & Hk0).
    assert (He0 : isError s0 = true).
    { unfold isCriticalError in Hk0. now destruct (isError s0). }
    apply Nat.eqb_neq in Hc.
    destruct (countSegments isCriticalError analysis) as [|n]; [now destruct Hc|].
    cbn [Nat.ltb Nat.leb].
    repeat split; try discriminate; eauto.
    + intros Hclean. rewrite (Hclean s0 Hin0) in He0. discriminate.
    + intros ((_ & _) & Hall). specialize (Hall s0 Hin0 He0).
      unfold isCriticalError in Hk0. rewrite He0, Hall in Hk0. discriminate.
Qed.



Section GridFacts.
Variable LocalTZA : Z -> bool -> Z.

Lemma entriesOn_cons (entry : HistoryEntry) (history : list HistoryEntry) (day : Z) :
  entriesOn LocalTZA (entry :: history) day
  = ((if (localDay LocalTZA (timestamp entry) =? day)%Z then 1 else 0)
     + entriesOn LocalTZA history day)%nat.
Proof.
  unfold entriesOn. simpl. now destruct (localDay LocalTZA (timestamp entry) =? day).
Qed.

Lemma list_sum_cons (x : nat) (l : list nat) : list_sum (x :: l) = (x + list_sum l)%nat.
Proof. reflexivity. Qed.

Lemma days_holding (day start : Z) (n : nat) :
  list_sum (List.map (fun d => if day =? d then 1%nat else 0%nat) (daysFrom start n))
  = if (start <=? day) && (day <? start + Z.of_nat n) then 1%nat else 0%nat.
Proof.
  revert start. induction n as [|n IH]; intros start.
  - cbn [daysFrom List.map list_sum].
    destruct (Z.leb_spec start day), (Z.ltb_spec day (start + Z.of_nat 0)); simpl;
      try reflexivity; lia.
  - cbn [daysFrom List.map]. rewrite list_sum_cons, IH.
    destruct (Z.eqb_spec day start), (Z.leb_spec (start + 1) day),
      (Z.ltb_spec day (start + 1 + Z.of_nat n)), (Z.leb_spec start day),
      (Z.ltb_spec day (start + Z.of_nat (S n))); simpl; try reflexivity; lia.
Qed.

Lemma entries_in_window (history : list HistoryEntry) (start : Z) (n : nat) :
  list_sum (List.map (entriesOn LocalTZA history) (daysFrom start n))
  = length (List.filter (fun entry => (start <=? localDay LocalTZA (timestamp entry))
                                      && (localDay LocalTZA (timestamp entry)
                                          <? start + Z.of_nat n))
                        history).
Proof.
  induction history as [|entry history IH].
  - simpl. induction (daysFrom start n) as [|d l IHl]; [reflexivity|exact IHl].
  - transitivity
      (list_sum (List.map (fun d => if (localDay LocalTZA (timestamp entry) =? d)%Z
                                    then 1%nat else 0%nat)
                          (daysFrom start n))
       + list_sum (List.map (entriesOn LocalTZA history) (daysFrom start n)))%nat.
    { clear IH. induction (daysFrom start n) as [|d l IHl]; [reflexivity|].
      cbn [List.map]. rewrite !list_sum_cons, IHl, entriesOn_cons. lia. }
    rewrite IH, days_holding. cbn [List.filter].
    now destruct ((start <=? localDay LocalTZA (timestamp entry))
                  && (localDay LocalTZA (timestamp entry) <? start + Z.of_nat n)).
Qed.

Lemma days_after (today start : Z) (n : nat) :
  length (List.filter (fun d => today <? d) (daysFrom start n))
  = Z.to_nat (Z.min (Z.of_nat n) (start + Z.of_nat n - 1 - today)).
Proof.
  revert start. induction n as [|n IH]; intros start; [simpl; lia|].
  cbn [daysFrom List.filter]. destruct (Z.ltb_spec today start); cbn [length]; rewrite IH; lia.
Qed.

Lemma filter_map_comm {A B : Type} (f : A -> B) (p : B -> bool) (l : list A) :
  List.filter p (List.map f l) = List.map f (List.filter (fun x => p (f x)) l).
Proof.
  induction l as [|x l IH]; [reflexivity|]. simpl. destruct (p (f x)); simpl; now rewrite IH.
Qed.

End GridFacts.

(** X24: the calendar grid neither drops nor repeats an entry.  In a time
    zone where every day of the grid has a local midnight and whose offset
    varies by less than a day, the counts of the 364 cells add up to the
    number of history entries whose local day lies in the 52 weeks of the
    grid; an entry outside those weeks is on no cell.  The cells flagged as
    future are the days of the current week after today, so there are
    [6 - getDay today] of them, none on a Saturday. *)
Theorem activity_grid_conserves_entries (LocalTZA : Z -> bool -> Z)
    (history : list HistoryEntry) (now : Z) :
  (forall day, gridStart LocalTZA now <= day < gridStart LocalTZA now + 364 ->
     hasMidnight LocalTZA day) ->
  offsetsWithinADay LocalTZA ->
  let cells := concat (activityWeeks LocalTZA history now) in
  let today := localDay LocalTZA now in
  let start := gridStart LocalTZA now in
  list_sum (List.map count cells)
  = length (List.filter (fun entry => (start <=? localDay LocalTZA (timestamp entry))
                                      && (localDay LocalTZA (timestamp entry) <? start + 364))
                        history)
  /\ (list_sum (List.map count cells) <= length history)%nat
  /\ (forall entry cell, In entry history -> In cell cells ->
        date cell = localDay LocalTZA (timestamp entry) ->
        start <= localDay LocalTZA (timestamp entry) < start + 364)
  /\ Z.of_nat (length (List.filter isFuture cells)) = 6 - getDay today
  /\ (getDay today = 6 -> forall cell, In cell cells -> isFuture cell = false).
Proof.
  intros Hmid Hvar cells today start.
  assert (Hcells : cells
                   = List.map (calendarCell LocalTZA history today) (daysFrom start 364)).
  { subst cells. now destruct (activityWeeks_cells LocalTZA history now Hmid Hvar)
      as (_ & _ & ->). }
  clearbody cells.
  assert (Hsum : list_sum (List.map count cells)
                 = length (List.filter
                             (fun entry => (start <=? localDay LocalTZA (timestamp entry))
                                           && (localDay LocalTZA (timestamp entry)
                                               <? start + 364))
                             history)).
  { rewrite Hcells, List.map_map. cbn [count calendarCell].
    now rewrite entries_in_window. }
  assert (Hfuture : Z.of_nat (length (List.filter isFuture cells)) = 6 - getDay today).
  { rewrite Hcells, filter_map_comm, length_map. cbn [isFuture calendarCell].
    rewrite days_after. subst start. unfold gridStart. fold today.
    pose proof (getDay_range today). lia. }
  split; [exact Hsum|].
  split; [rewrite Hsum; apply filter_length_le|].
  split.
  { intros entry cell _ Hcell <-. rewrite Hcells in Hcell.
    apply in_map_iff in Hcell as (day & <- & Hday). cbn [date calendarCell].
    apply in_daysFrom in Hday. exact Hday. }
  split; [exact Hfuture|].
  intros Hsaturday cell Hcell.
  rewrite Hsaturday in Hfuture.
  assert (Hnone : length (List.filter isFuture cells) = 0%nat) by lia.
  exact (proj1 (length_filter_zero isFuture cells) Hnone cell Hcell).
Qed.

Lemma activity_grid_conserves_entries_witness :
  list_sum (List.map count
              (concat (activityWeeks berlin2026
                         [entryAt "m" mondayNoon; entryAt "t" tuesdayNoon] mondayNoon)))
  = 2%nat
  /\ Z.of_nat (length (List.filter isFuture
                         (concat (activityWeeks berlin2026
                                    [entryAt "m" mondayNoon; entryAt "t" tuesdayNoon]
                                    mondayNoon))))
     = 6 - getDay (localDay berlin2026 mondayNoon).
Proof.
  destruct (activity_grid_conserves_entries berlin2026
              [entryAt "m" mondayNoon; entryAt "t" tuesdayNoon] mondayNoon
              (fun day _ => berlin2026_hasMidnight day) berlin2026_offsetsWithinADay)
    as (Hsum & _ & _ & Hfuture & _).
  split; [|exact Hfuture].
  rewrite Hsum. vm_compute. reflexivity.
Defined.

End ProfileFacts.

(** ** The handlers of the main component *)

Module AppFacts.
Import Js App AppMore RequestCoordinator.
Import StorageService (GrammarAnalysis, RewriteAnalysis, RewriteStyle, LocalStorage,
                       getHistory, getStats, grammarEntry, rewriteEntry, dictionaryEntry,
                       saveHistory, saveRewriteHistory, saveDictionaryHistory, prependEntry,
                       fullText, textSnippet, type, rewrittenText, correctedSentence).
Import DurableStore StoreFacts.

(** X25: Stop and Clear cancel the request in flight.  When a request was
    begun at a clock reading other than 0, its continuation changes nothing
    once [handleStop] or [handleClear] has run, however the call settles:
    no result is shown, no history entry is written, no alert is raised.
    Stop keeps the typed text and Clear empties it; neither touches the
    storage. *)
Theorem stop_and_clear_cancel_pending (request : Request) (clock : Z) (w w1 : World)
    (pending : Pending) (outcome : Outcome) (env : Env) :
  begin request clock w = (w1, Some pending) ->
  clock <> 0 ->
  resume pending outcome env (handleStop w1) = handleStop w1
  /\ resume pending outcome env (handleClear w1) = handleClear w1
  /\ loadingState (ui (handleStop w1)) = IDLE
  /\ loadingState (ui (handleClear w1)) = IDLE
  /\ inputText (ui (handleStop w1)) = inputText (ui w)
  /\ inputText (ui (handleClear w1)) = ""
  /\ storage (handleStop w1) = storage w
  /\ storage (handleClear w1) = storage w
  /\ alerts (handleStop w1) = alerts w
  /\ alerts (handleClear w1) = alerts w.
Proof.
  intros Hbegin Hclock.
  destruct (begin_token request clock w w1 pending Hbegin) as (_ & Hid).
  assert (Hw1 : w1 = startLoading clock w).
  { destruct request; simpl in Hbegin; unfold handleCheckGrammar, handleRewrite in Hbegin;
      destruct (trimIsEmpty _); try discriminate; now injection Hbegin as <- _. }
  split; [apply resume_stale; simpl; congruence|].
  split; [apply resume_stale; simpl; congruence|].
  subst w1. repeat split.
Qed.

Lemma stop_and_clear_cancel_pending_witness :
  resume pendingAt1000 (CheckSettled (Resolved analysisA)) envA
         (handleStop (fst (handleCheckGrammar 1000 typedWorld)))
  = handleStop (fst (handleCheckGrammar 1000 typedWorld)).
Proof.
  apply (stop_and_clear_cancel_pending CheckRequest 1000 typedWorld
           (fst (handleCheckGrammar 1000 typedWorld)) pendingAt1000
           (CheckSettled (Resolved analysisA)) envA).
  - reflexivity.
  - discriminate.
Defined.

(** X26: what a request that is still the active one commits.  A grammar
    check shows its analysis, puts exactly one grammar entry in front of
    the history, built from the text the handler held when it was started
    (not from the text in the field when the call settles), offers at most
    four quick styles and bumps the reload trigger; a rewrite shows its
    result, puts exactly one rewrite entry in front of the history and
    leaves the statistics as they were.  Neither raises an alert. *)
Theorem active_request_commits_once (pending : Pending) (env : Env) (w : World) :
  activeRequestId w = requestId pending ->
  (forall analysis,
      let after := handleCheckGrammar_continue pending (Resolved analysis) env w in
      getHistory (storage after)
      = grammarEntry (uuid env) (now env) (capturedText pending) analysis
          :: getHistory (storage w)
      /\ grammarResult (ui after) = Some analysis
      /\ loadingState (ui after) = SUCCESS
      /\ historyUpdateTrigger (ui after) = S (historyUpdateTrigger (ui w))
      /\ styles (quickRewriteState (ui after)) = firstn 4 (shuffled env)
      /\ (length (styles (quickRewriteState (ui after))) <= 4)%nat
      /\ inputText (ui after) = inputText (ui w)
      /\ alerts after = alerts w)
  /\ (forall analysis,
        let after := handleRewrite_continue pending (Resolved analysis) env w in
        getHistory (storage after)
        = rewriteEntry (uuid env) (now env) analysis :: getHistory (storage w)
        /\ getStats (storage after) = getStats (storage w)
        /\ rewriteResult (ui after) = Some analysis
        /\ loadingState (ui after) = SUCCESS
        /\ historyUpdateTrigger (ui after) = S (historyUpdateTrigger (ui w))
        /\ alerts after = alerts w).
Proof.
  intros Hactive. split; intros analysis after; subst after; simpl;
    rewrite Hactive, Z.eqb_refl; simpl; rewrite ?Hactive, ?Z.eqb_refl; simpl.
  - unfold saveHistory. rewrite getHistory_prependEntry.
    repeat split. apply firstn_le_length.
  - unfold saveRewriteHistory. rewrite getHistory_prependEntry.
    repeat split. now apply getStats_prepend_other.
Qed.

Lemma active_request_commits_once_witness :
  getHistory (storage (handleCheckGrammar_continue pendingAt1000 (Resolved analysisA) envA
                         (fst (handleCheckGrammar 1000 typedWorld))))
  = grammarEntry (uuid envA) (now envA) (capturedText pendingAt1000) analysisA
      :: getHistory (storage (fst (handleCheckGrammar 1000 typedWorld))).
Proof.
  assert (Hactive : activeRequestId (fst (handleCheckGrammar 1000 typedWorld))
                    = requestId pendingAt1000) by reflexivity.
  destruct (active_request_commits_once pendingAt1000 envA
              (fst (handleCheckGrammar 1000 typedWorld)) Hactive) as (Hcheck & _).
  destruct (Hcheck analysisA) as (Hhistory & _). exact Hhistory.
Defined.

(** X27: a quick rewrite is outside the request guard.  Its continuation
    never reads or writes the request id, writes no history entry and
    leaves the main results and the loading state alone; when the call
    succeeds its text is shown even if Stop, Clear or the quick stop button
    ran in the meantime.  Without a grammar result no call is made. *)
Theorem quick_rewrite_is_never_cancelled (settled : Settled RewriteAnalysis) (w : World) :
  let after := handleQuickRewrite_continue settled w in
  activeRequestId after = activeRequestId w
  /\ storage after = storage w
  /\ grammarResult (ui after) = grammarResult (ui w)
  /\ rewriteResult (ui after) = rewriteResult (ui w)
  /\ loadingState (ui after) = loadingState (ui w)
  /\ isLoading (quickRewriteState (ui after)) = false
  /\ (forall analysis cancel,
        settled = Resolved analysis ->
        cancel = handleStop \/ cancel = handleClear \/ cancel = handleStopQuickRewrite ->
        result (quickRewriteState (ui (handleQuickRewrite_continue settled (cancel w))))
        = Some (rewrittenText analysis))
  /\ (forall style, grammarResult (ui w) = None -> handleQuickRewrite style w = (w, None))
  /\ (forall style analysis, grammarResult (ui w) = Some analysis ->
        snd (handleQuickRewrite style w) = Some (correctedSentence analysis)
        /\ isLoading (quickRewriteState (ui (fst (handleQuickRewrite style w)))) = true
        /\ activeRequestId (fst (handleQuickRewrite style w)) = activeRequestId w
        /\ loadingState (ui (fst (handleQuickRewrite style w))) = loadingState (ui w)).
Proof.
  intros after. subst after.
  assert (Hframe : forall v : World,
            activeRequestId (handleQuickRewrite_continue settled v) = activeRequestId v
            /\ storage (handleQuickRewrite_continue settled v) = storage v
            /\ grammarResult (ui (handleQuickRewrite_continue settled v)) = grammarResult (ui v)
            /\ rewriteResult (ui (handleQuickRewrite_continue settled v)) = rewriteResult (ui v)
            /\ loadingState (ui (handleQuickRewrite_continue settled v)) = loadingState (ui v)
            /\ isLoading (quickRewriteState (ui (handleQuickRewrite_continue settled v)))
               = false).
  { intros v. destruct settled as [analysis|error]; simpl; [repeat split|].
    destruct (includes (handlerMsg error) "PERMISSION_DENIED"); repeat split. }
  destruct (Hframe w) as (H1 & H2 & H3 & H4 & H5 & H6).
  do 6 (split; [assumption|]).
  split.
  { intros analysis cancel -> [-> | [-> | ->]]; reflexivity. }
  split.
  { intros style Hnone. unfold handleQuickRewrite. now rewrite Hnone. }
  intros style analysis Hsome. unfold handleQuickRewrite. rewrite Hsome. repeat split.
Qed.

(** X28: a dictionary look-up.  A blank term starts nothing.  When the
    entries are found, exactly one dictionary entry holding the term as it
    was typed is put in front of the history, the statistics stay as they
    were and the reload trigger is bumped; when the look-up fails in any
    way, nothing is stored and the error text is set.  Either way loading
    ends.  The continuation does not check the term: the entries of an
    earlier look-up that arrive after a later one was started are shown
    under the later term. *)
Theorem dictionary_lookup_effects (term : string) (env : Env) (screen : Screen) :
  trimIsEmpty term = false ->
  let searching := fst (handleDictionarySearch term screen) in
  world searching = world screen
  /\ dictionaryLoading (dictionary searching) = true
  /\ dictionaryData (dictionary searching) = None
  /\ dictionaryTerm (dictionary searching) = term
  /\ (forall data,
        let after := handleDictionarySearch_continue term (Found data) env searching in
        getHistory (storage (world after))
        = dictionaryEntry (uuid env) (now env) term :: getHistory (storage (world screen))
        /\ getStats (storage (world after)) = getStats (storage (world screen))
        /\ historyUpdateTrigger (ui (world after))
           = S (historyUpdateTrigger (ui (world screen)))
        /\ dictionaryData (dictionary after) = Some data
        /\ dictionaryError (dictionary after) = None
        /\ dictionaryLoading (dictionary after) = false)
  /\ (forall lookup, (forall data, lookup <> Found data) ->
        let after := handleDictionarySearch_continue term lookup env searching in
        world after = world screen
        /\ dictionaryData (dictionary after) = None
        /\ dictionaryError (dictionary after) = Some "Could not find definition."
        /\ dictionaryLoading (dictionary after) = false)
  /\ (forall later data, trimIsEmpty later = false ->
        let overtaken := fst (handleDictionarySearch later searching) in
        let after := handleDictionarySearch_continue term (Found data) env overtaken in
        dictionaryTerm (dictionary after) = later
        /\ dictionaryData (dictionary after) = Some data
        /\ dictionaryLoading (dictionary after) = false
        /\ getHistory (storage (world after))
           = dictionaryEntry (uuid env) (now env) term
               :: getHistory (storage (world screen))).
Proof.
  intros Hterm searching. subst searching. unfold handleDictionarySearch. rewrite Hterm.
  cbn [fst world dictionary dictionaryLoading dictionaryData dictionaryTerm].
  do 4 (split; [reflexivity|]).
  split.
  { intros data. cbn [handleDictionarySearch_continue world dictionary setStorage setUi
                        storage ui setHistoryUpdateTrigger historyUpdateTrigger
                        dictionaryData dictionaryError dictionaryLoading].
    unfold saveDictionaryHistory. rewrite getHistory_prependEntry.
    split; [reflexivity|]. split; [now apply getStats_prepend_other|]. repeat split. }
  split.
  { intros lookup Hfailed.
    destruct lookup as [data| | |]; [now destruct (Hfailed data)|..]; repeat split. }
  intros later data Hlater. rewrite Hlater.
  cbn [fst handleDictionarySearch_continue world dictionary setStorage setUi
       storage ui dictionaryTerm dictionaryData dictionaryLoading].
  unfold saveDictionaryHistory. rewrite getHistory_prependEntry. repeat split.
Qed.

Lemma dictionary_lookup_effects_witness :
  getHistory (storage (world (handleDictionarySearch_continue "cat" (Found []) envA
                                (fst (handleDictionarySearch "cat" typedScreen)))))
  = dictionaryEntry (uuid envA) (now envA) "cat"
      :: getHistory (storage (world typedScreen)).
Proof.
  assert (Hterm : trimIsEmpty "cat" = false) by reflexivity.
  destruct (dictionary_lookup_effects "cat" envA typedScreen Hterm)
    as (_ & _ & _ & _ & Hfound & _).
  destruct (Hfound []) as (Hhistory & _). exact Hhistory.
Defined.

End AppFacts.

(** ** Words that swap with their pronunciation, and swipe navigation *)

Module InteractionFacts.
Import Js JsText InteractiveText App AppMore.

#[local] Set Warnings "-clear-no-such-hyp".

Lemma handleToggle_other (words : list WordData) (index other : nat) (swapped : gset nat) :
  other <> index -> (other ∈ handleToggle words index swapped <-> other ∈ swapped).
Proof.
  intros Hother. unfold handleToggle.
  destruct (words !! index) as [word|]; [|reflexivity].
  destruct (String.eqb (ipa word) ""); [reflexivity|].
  destruct (bool_decide (index ∈ swapped)); set_solver.
Qed.

Lemma handleToggle_in (words : list WordData) (index clicked : nat) (swapped : gset nat) :
  index ∈ handleToggle words clicked swapped ->
  index ∈ swapped \/ exists word, words !! index = Some word /\ ipa word <> "".
Proof.
  unfold handleToggle.
  destruct (words !! clicked) as [word|] eqn:Hword; [|now left].
  destruct (String.eqb_spec (ipa word) "") as [|Hipa]; [now left|].
  destruct (bool_decide (clicked ∈ swapped)).
  - intros Hin. left. set_solver.
  - intros Hin. apply elem_of_union in Hin as [Hin|Hin]; [now left|].
    apply elem_of_singleton in Hin as ->. right. eauto.
Qed.

Lemma afterClicks_in (words : list WordData) (indices : list nat) :
  forall (swapped : gset nat) (index : nat),
    index ∈ afterClicks words indices swapped ->
    index ∈ swapped \/ exists word, words !! index = Some word /\ ipa word <> "".
Proof.
  unfold afterClicks.
  induction indices as [|clicked indices IH]; intros swapped index Hin; [now left|].
  cbn [List.fold_left] in Hin. apply IH in Hin as [Hin|Hin]; [|now right].
  now apply handleToggle_in in Hin.
Qed.

(** X29: clicking a word.  A second click on the same word undoes the
    first; a click changes the state of no other word; a word with a
    pronunciation changes sides at each click; and after any clicks from
    the initial state only words that have a pronunciation are swapped, so
    a word without one (a space, punctuation) always shows its text. *)
Theorem toggle_swaps_only_words_with_pronunciation (words : list WordData) :
  (forall index swapped,
      handleToggle words index (handleToggle words index swapped) = swapped)
  /\ (forall index other swapped, other <> index ->
        (other ∈ handleToggle words index swapped <-> other ∈ swapped))
  /\ (forall index word swapped, words !! index = Some word -> ipa word <> "" ->
        (index ∈ handleToggle words index swapped <-> index ∉ swapped))
  /\ (forall indices index, index ∈ afterClicks words indices ∅ ->
        exists word, words !! index = Some word /\ ipa word <> "")
  /\ (forall indices index word, words !! index = Some word -> ipa word = "" ->
        shownText (afterClicks words indices ∅) index word = text word).
Proof.
  split; [|split; [|split; [|split]]].
  - intros index swapped. unfold handleToggle.
    destruct (words !! index) as [word|]; [|reflexivity].
    destruct (String.eqb (ipa word) ""); [reflexivity|].
    destruct (bool_decide (index ∈ swapped)) eqn:Hin.
    + apply bool_decide_eq_true in Hin.
      rewrite bool_decide_eq_false_2 by set_solver.
      apply set_eq. intros other. destruct (decide (other = index)); set_solver.
    + apply bool_decide_eq_false in Hin.
      rewrite bool_decide_eq_true_2 by set_solver.
      apply set_eq. intros other. destruct (decide (other = index)); set_solver.
  - intros index other swapped. apply handleToggle_other.
  - intros index word swapped Hword Hipa. unfold handleToggle. rewrite Hword.
    destruct (String.eqb_spec (ipa word) ""); [contradiction|].
    destruct (bool_decide (index ∈ swapped)) eqn:Hin.
    + apply bool_decide_eq_true in Hin. set_solver.
    + apply bool_decide_eq_false in Hin. set_solver.
  - intros indices index Hin.
    apply afterClicks_in in Hin as [Hin|Hin]; [|exact Hin]. set_solver.
  - intros indices index word _ Hipa. unfold shownText. now rewrite Hipa.
Qed.

(** X30: swiping between the views.  A swipe to the left leads from the
    checker to the menu and changes no other view; a swipe to the right
    leads from settings and profile to the menu and from the menu to the
    checker; every other touch changes nothing.  So no touch opens the
    profile or the settings, and the two refs are cleared at the end of
    every touch that had a start. *)
Theorem swipe_navigation (startX startY clientX clientY : float) (view : ViewMode)
    (refs : TouchRefs) :
  let after := gesture startX startY clientX clientY view in
  (isSwipeLeft startX startY clientX clientY = true ->
     after = match view with checker => menu | other => other end)
  /\ (isSwipeRight startX startY clientX clientY = true ->
      after = match view with
              | settings | profile => menu
              | menu | checker => checker
              end)
  /\ (isSwipeLeft startX startY clientX clientY = false ->
      isSwipeRight startX startY clientX clientY = false -> after = view)
  /\ isSwipeLeft startX startY clientX clientY && isSwipeRight startX startY clientX clientY
     = false
  /\ (after = profile -> view = profile)
  /\ (after = settings -> view = settings)
  /\ fst (onTouchEnd clientX clientY (onTouchStart startX startY refs) view)
     = {| touchStartX := None; touchStartY := None |}
  /\ onTouchEnd clientX clientY {| touchStartX := None; touchStartY := None |} view
     = ({| touchStartX := None; touchStartY := None |}, view).
Proof.
  intros after. subst after.
  unfold gesture, isSwipeLeft, isSwipeRight, onTouchEnd, onTouchStart.
  cbn [touchStartX touchStartY].
  destruct (PrimFloat.ltb (PrimFloat.abs (PrimFloat.sub startY clientY))
                          (PrimFloat.abs (PrimFloat.sub startX clientX)));
    destruct (PrimFloat.ltb minSwipeDistance (PrimFloat.abs (PrimFloat.sub startX clientX)));
    destruct (PrimFloat.ltb 0 (PrimFloat.sub startX clientX));
    destruct view; cbn [andb negb fst snd];
    repeat split; intros; try reflexivity; try discriminate; try congruence.
Qed.

End InteractionFacts.
